(** * LP1.py: an archiver for .bz2, .zst, .tar.bz2 and .tar.zst

    A shallow embedding of [src/LP1.py] and the properties its specification
    states about it.  The program is a thin layer over three external
    libraries (bz2, zstd, tarfile) and the file system:

    - the file system is a tree of nodes addressed by paths;
    - the external libraries are a record of functions ([Libs]); what the
      proofs need from them is stated as laws ([LibsLaws]) and shown to be
      satisfiable by a small concrete instance ([Toy.libs]);
    - the operations [archive] and [extract] run in a monad that threads the
      file system, collects what is printed and distinguishes a returned
      value from a raised exception. *)

From Stdlib Require Import List String Ascii Strings.Byte ZArith QArith Qminmax Lia Bool Arith
  Permutation.
Import ListNotations.

Local Open Scope string_scope.
Local Open Scope list_scope.

Set Implicit Arguments.
Set Warnings "-register-all".

(** ** Bytes and names *)

Definition bytes := list byte.

Definition path := list string.

(** [Path.name]: the last component, empty for the root. *)
Definition name (p : path) : string := last p "".

(** [Path.parent] *)
Definition parent (p : path) : path := removelast p.

(** ** String helpers: [str.lower], [str.endswith], [Path.stem] *)

Module Str.

Definition lower_ascii (c : ascii) : ascii :=
  let n := nat_of_ascii c in
  if (65 <=? n)%nat && (n <=? 90)%nat then ascii_of_nat (n + 32) else c.

(** [str.lower].  Python lower-cases by Unicode rules; on the bytes of a
    UTF-8 name only the ASCII letters can turn into the characters of the
    four suffixes, so the ASCII rule decides the same suffix tests. *)
Fixpoint lower (s : string) : string :=
  match s with
  | EmptyString => EmptyString
  | String c s' => String (lower_ascii c) (lower s')
  end.

(** [s.endswith(suf)] *)
Definition endswith (s suf : string) : bool :=
  let n := String.length s in
  let m := String.length suf in
  if (m <=? n)%nat then String.eqb (substring (n - m) m s) suf else false.

(** [s.endswith((a, b))]: a tuple argument means any of them. *)
Definition endswith2 (s a b : string) : bool := endswith s a || endswith s b.

Definition dot : ascii := "."%char.

(** [s.rfind('.')] *)
Fixpoint rfind_dot (s : string) : option nat :=
  match s with
  | EmptyString => None
  | String c s' =>
      match rfind_dot s' with
      | Some i => Some (S i)
      | None => if Ascii.eqb c dot then Some 0%nat else None
      end
  end.

(** [s.lstrip('.')] *)
Fixpoint lstrip_dots (s : string) : string :=
  match s with
  | EmptyString => EmptyString
  | String c s' => if Ascii.eqb c dot then lstrip_dots s' else s
  end.

(** [Path.stem] on a file name (Python 3.14): the name up to its last dot,
    when that prefix holds a character other than a dot. *)
Definition stem (nm : string) : string :=
  match rfind_dot nm with
  | Some i =>
      let st := substring 0 i nm in
      match lstrip_dots st with
      | EmptyString => nm
      | _ => st
      end
  | None => nm
  end.

End Str.

(** ** Format dispatch (lines 119-135 of [archive], 217-233 of [extract]) *)

Inductive container := Single | Tar.
Inductive codec := Zst | Bz2.

Definition format := (container * codec)%type.

(** The chain of suffix tests, on the lower-cased name.  [archive] and
    [extract] contain the same chain. *)
Definition dispatch (lname : string) : option format :=
  if Str.endswith2 lname ".tar.zst" ".tar.bz2" then
    if Str.endswith lname ".tar.zst" then Some (Tar, Zst) else Some (Tar, Bz2)
  else if Str.endswith lname ".zst" then Some (Single, Zst)
  else if Str.endswith lname ".bz2" then Some (Single, Bz2)
  else None.

(** [dst_name = dst.name.lower()] followed by the chain. *)
Definition format_of (p : path) : option format := dispatch (Str.lower (name p)).

(** The dispatcher as the specification words it: an ordered table of
    suffixes, longest first, the first matching row wins. *)
Definition suffix_table : list (string * format) :=
  [ (".tar.zst", (Tar, Zst)); (".tar.bz2", (Tar, Bz2));
    (".zst", (Single, Zst)); (".bz2", (Single, Bz2)) ].

Fixpoint first_match (rows : list (string * format)) (nm : string) : option format :=
  match rows with
  | [] => None
  | (suf, f) :: rows' => if Str.endswith nm suf then Some f else first_match rows' nm
  end.

Definition Dispatcher (nm : string) : option format := first_match suffix_table nm.

(** ** Exceptions and results *)

(** The exceptions the program can meet, by the specification's taxonomy:
    [IOError] for every [OSError] of the file system, [CodecError] for the
    bz2 and zstd libraries, [TarError] for tarfile. *)
Inductive exn := IOError | CodecError | TarError.

Inductive res (A : Type) : Type :=
| Ok (a : A)
| Raise (e : exn).

Arguments Ok {A} a.
Arguments Raise {A} e.

(** ** The file system *)

Inductive node :=
| File (data : bytes)
| Dir (entries : list (string * node)).

Module FS.

Fixpoint assoc (k : string) (l : list (string * node)) : option node :=
  match l with
  | [] => None
  | (k', v) :: l' => if String.eqb k k' then Some v else assoc k l'
  end.

Fixpoint set_entry (k : string) (v : node) (l : list (string * node))
  : list (string * node) :=
  match l with
  | [] => [(k, v)]
  | (k', v') :: l' =>
      if String.eqb k k' then (k, v) :: l' else (k', v') :: set_entry k v l'
  end.

Fixpoint lookup (n : node) (p : path) : option node :=
  match p with
  | [] => Some n
  | k :: p' =>
      match n with
      | Dir es =>
          match assoc k es with
          | Some c => lookup c p'
          | None => None
          end
      | File _ => None
      end
  end.

(** [Path.exists], [Path.is_file], [Path.is_dir] *)
Definition exists_ (fs : node) (p : path) : bool :=
  match lookup fs p with Some _ => true | None => false end.

Definition is_file (fs : node) (p : path) : bool :=
  match lookup fs p with Some (File _) => true | _ => false end.

Definition is_dir (fs : node) (p : path) : bool :=
  match lookup fs p with Some (Dir _) => true | _ => false end.

(** [Path.read_bytes] *)
Definition read_bytes (fs : node) (p : path) : res bytes :=
  match lookup fs p with
  | Some (File d) => Ok d
  | _ => Raise IOError
  end.

(** [Path.write_bytes]: creates or overwrites a regular file; the parent
    must be an existing directory and the target must not be one. *)
Fixpoint write_bytes (n : node) (p : path) (d : bytes) : res node :=
  match n, p with
  | File _, [] => Ok (File d)
  | Dir _, [] => Raise IOError
  | File _, _ :: _ => Raise IOError
  | Dir es, k :: p' =>
      match assoc k es, p' with
      | Some c, _ =>
          match write_bytes c p' d with
          | Ok c' => Ok (Dir (set_entry k c' es))
          | Raise e => Raise e
          end
      | None, [] => Ok (Dir (set_entry k (File d) es))
      | None, _ :: _ => Raise IOError
      end
  end.

(** [Path.mkdir(parents=True, exist_ok=True)], which is also
    [os.makedirs(p, exist_ok=True)]: fails when the path or one of its
    ancestors is a regular file. *)
Fixpoint mkdir_parents (n : node) (p : path) : res node :=
  match n, p with
  | File _, _ => Raise IOError
  | Dir _, [] => Ok n
  | Dir es, k :: p' =>
      let c := match assoc k es with Some c => c | None => Dir [] end in
      match mkdir_parents c p' with
      | Ok c' => Ok (Dir (set_entry k c' es))
      | Raise e => Raise e
      end
  end.

(** [Path.stat().st_size] of a regular file *)
Definition size (fs : node) (p : path) : res nat :=
  match lookup fs p with
  | Some (File d) => Ok (List.length d)
  | _ => Raise IOError
  end.

(** One step of [os.walk]: the directory's path relative to the top, the
    names of its subdirectories, and its regular files. *)
Definition triple := (path * list string * list (string * bytes))%type.

Fixpoint dirs_of (es : list (string * node)) : list string :=
  match es with
  | [] => []
  | (k, Dir _) :: es' => k :: dirs_of es'
  | (_, File _) :: es' => dirs_of es'
  end.

Fixpoint files_of (es : list (string * node)) : list (string * bytes) :=
  match es with
  | [] => []
  | (k, File d) :: es' => (k, d) :: files_of es'
  | (_, Dir _) :: es' => files_of es'
  end.

(** [os.walk(top)], top-down: the directory itself, then each
    subdirectory's walk.  On a regular file it yields nothing. *)
Fixpoint walk (root : path) (n : node) {struct n} : list triple :=
  match n with
  | File _ => []
  | Dir es =>
      (root, dirs_of es, files_of es)
        :: (fix sub (l : list (string * node)) : list triple :=
              match l with
              | [] => []
              | (k, c) :: l' => walk (root ++ [k]) c ++ sub l'
              end) es
  end.

(** Well-formed trees: the names of a directory are pairwise distinct. *)
Fixpoint fresh (k : string) (l : list (string * node)) : bool :=
  match l with
  | [] => true
  | (k', _) :: l' => negb (String.eqb k k') && fresh k l'
  end.

Fixpoint wf (n : node) : bool :=
  match n with
  | File _ => true
  | Dir es =>
      (fix all (l : list (string * node)) : bool :=
         match l with
         | [] => true
         | (k, c) :: l' => fresh k l' && wf c && all l'
         end) es
  end.

End FS.

(** ** Tar members and the external libraries *)

Inductive member :=
| MFile (arcname : path) (data : bytes)
| MDir (arcname : path).

Definition arcname_of (m : member) : path :=
  match m with MFile p _ => p | MDir p => p end.

(** The external collaborators.  The zstd compressor and decompressor are
    objects with internal state, fed piece by piece. *)
Record Libs : Type := {
  bz2_compress : bytes -> bytes;
  bz2_decompress : bytes -> res bytes;
  ZstdCompressor : Type;
  zc_new : ZstdCompressor;
  zc_compress : ZstdCompressor -> bytes -> ZstdCompressor * bytes;
  zc_flush : ZstdCompressor -> bytes;
  ZstdDecompressor : Type;
  zd_new : ZstdDecompressor;
  zd_decompress : ZstdDecompressor -> bytes -> res (ZstdDecompressor * bytes);
  (** [tarfile.open(fileobj=buf, mode="w")] and [mode="r:"] *)
  tar_write : list member -> bytes;
  tar_read : bytes -> res (list member);
  (** [tarfile.open(path, "w:bz2")] and ["r:bz2"] *)
  tar_bz2_write : list member -> bytes;
  tar_bz2_read : bytes -> res (list member)
}.

(** ** What the program prints *)

Inductive error :=
| SourceNotFound (p : path)            (* "Ошибка: ... не найден" *)
| UnsupportedFormat                    (* "Ошибка: поддерживаются только форматы ..." *)
| DirectoryRequiresTar                 (* "Ошибка: для папок используйте ..." *)
| ArchiveFailed (e : exn)              (* "Ошибка при архивации: ..." *)
| ExtractFailed (e : exn).             (* "Ошибка при распаковке: ..." *)

Inductive message :=
| FileCount (n : nat)                          (* "Файлов для архивации: n" *)
| FileSize (n : nat)                           (* "Размер файла: ..." *)
| ArchiveCreated (dst : path) (size : nat)     (* "Архив создан: ..." *)
| ArchiveBenchmark (src_size dst_size : nat)   (* the four benchmark lines *)
| ExtractBenchmark                             (* "Распаковка завершена за ..." *)
| Extracted (dest : path).                     (* "Распаковано в: ..." *)

(** A rendered progress bar: the prefix, the numbers of filled and of empty
    cells, the fraction and the two counts. *)
Inductive event :=
| Progress (prefix : string) (filled empty : nat) (fraction : Q) (cur total : Z)
| Newline
| Stdout (m : message)
| Stderr (e : error).

(** [int(x)] on a rational: truncation towards zero. *)
Definition int_of_Q (x : Q) : Z := Z.quot (Qnum x) (Zpos (Qden x)).

(** [print_progress(cur, total, prefix, width)].  The fraction is computed on
    exact rationals where Python uses floats. *)
Definition print_progress_width (cur total : Z) (prefix : string) (width : Z)
  : list event :=
  if (total <=? 0)%Z then []
  else
    let progress := Qmin (cur # Z.to_pos total) 1 in
    let filled := int_of_Q (inject_Z width * progress) in
    [Progress prefix (Z.to_nat filled) (Z.to_nat (width - filled)) progress cur total].

Definition print_progress (cur total : Z) (prefix : string) : list event :=
  print_progress_width cur total prefix 50.

Definition lbl_archive : string := "Архивация: ".
Definition lbl_compress : string := "Сжатие: ".
Definition lbl_extract : string := "Распаковка: ".
Definition lbl_extract_zstd : string := "Распаковка zstd: ".
Definition lbl_extract_tar : string := "Распаковка tar: ".

(** ** The monad of the operations

    An action reads and updates the file system, appends to what has been
    printed, and either returns a value or raises an exception.  What was
    written and printed before an exception stays. *)

Definition M (A : Type) : Type := node -> node * list event * res A.

Definition ret {A} (a : A) : M A := fun fs => (fs, [], Ok a).

Definition bind {A B} (m : M A) (f : A -> M B) : M B :=
  fun fs =>
    match m fs with
    | (fs1, out1, Ok a) =>
        match f a fs1 with
        | (fs2, out2, r) => (fs2, out1 ++ out2, r)
        end
    | (fs1, out1, Raise e) => (fs1, out1, Raise e)
    end.

Notation "x <- m ;; k" := (bind m (fun x => k))
  (at level 61, m at next level, right associativity).
Notation "m ;;; k" := (bind m (fun _ => k))
  (at level 61, right associativity).

Definition raise {A} (e : exn) : M A := fun fs => (fs, [], Raise e).

Definition emit (out : list event) : M unit := fun fs => (fs, out, Ok tt).

Definition print_newline : M unit := emit [Newline].
Definition print_out (m : message) : M unit := emit [Stdout m].
Definition print_err (e : error) : M unit := emit [Stderr e].

Definition get_fs : M node := fun fs => (fs, [], Ok fs).

(** A pure file-system query that may raise. *)
Definition query {A} (f : node -> res A) : M A := fun fs => (fs, [], f fs).

(** A file-system update that may raise. *)
Definition update (f : node -> res node) : M unit :=
  fun fs =>
    match f fs with
    | Ok fs' => (fs', [], Ok tt)
    | Raise e => (fs, [], Raise e)
    end.

Definition lift {A} (r : res A) : M A := fun fs => (fs, [], r).

(** [try: body except Exception as e: handler(e)] *)
Definition try_except {A} (body : M A) (handler : exn -> M A) : M A :=
  fun fs =>
    match body fs with
    | (fs1, out1, Ok a) => (fs1, out1, Ok a)
    | (fs1, out1, Raise e) =>
        match handler e fs1 with
        | (fs2, out2, r) => (fs2, out1 ++ out2, r)
        end
    end.

(** [for x in xs: acc = body(x, acc)] *)
Fixpoint for_each {A S} (xs : list A) (acc : S) (body : A -> S -> M S) : M S :=
  match xs with
  | [] => ret acc
  | x :: xs' => acc' <- body x acc ;; for_each xs' acc' body
  end.

(** ** Slices and ranges *)

Definition chunk_size : nat := N.to_nat 8192.

(** [data[i:j]] *)
Definition slice {A} (data : list A) (i j : nat) : list A :=
  firstn (j - i) (skipn i data).

(** [range(0, stop, step)] for a positive step *)
Definition range_step (stop step : nat) : list nat :=
  map (fun k => k * step)%nat (seq 0 ((stop + step - 1) / step)).

(** [enumerate(xs)] *)
Definition enumerate {A} (xs : list A) : list (nat * A) :=
  combine (seq 0 (List.length xs)) xs.

(** ** The tar builder *)

Definition walk_at (fs : node) (p : path) : list FS.triple :=
  match FS.lookup fs p with
  | Some n => FS.walk [] n
  | None => []
  end.

(** [count_files(path)] *)
Definition count_files (fs : node) (p : path) : nat :=
  if FS.is_file fs p then 1%nat
  else
    fold_left (fun count (t : FS.triple) => (count + List.length (snd t))%nat)
              (walk_at fs p) 0%nat.

(** The two nested loops of [create_tar_archive]: for every step of the
    walk and every file of the step, [tar.add(file_path, arcname)] with
    [arcname = (Path(root) / file).relative_to(src)]. *)
Definition members_of_walk (ts : list FS.triple) : list member :=
  flat_map (fun t : FS.triple =>
              let '(root, _, files) := t in
              map (fun f : string * bytes => MFile (root ++ [fst f]) (snd f)) files)
           ts.

(** The members [create_tar_archive(src, buf)] adds to the tar stream: one
    named by the base name for a regular file; for a directory one per file
    of the walk, named relative to [src]. *)
Definition create_tar_archive (fs : node) (src : path) : list member :=
  if FS.is_file fs src then
    match FS.lookup fs src with
    | Some (File d) => [MFile [name src] d]
    | _ => []
    end
  else
    members_of_walk (walk_at fs src).

(** [sorted(os.listdir(name))] inside [TarFile.add]: insertion by name. *)
Fixpoint insert_by_name {A} (x : string * A) (l : list (string * A))
  : list (string * A) :=
  match l with
  | [] => [x]
  | y :: l' => if String.leb (fst x) (fst y) then x :: y :: l'
               else y :: insert_by_name x l'
  end.

Definition sort_by_name {A} (l : list (string * A)) : list (string * A) :=
  fold_right insert_by_name [] l.

(** [TarFile.add(name, arcname)], recursive: a directory is added itself and
    then its entries in sorted order, each under [arcname/entry]. *)
Fixpoint tar_add (n : node) (arcname : path) {struct n} : list member :=
  match n with
  | File d => [MFile arcname d]
  | Dir es =>
      MDir arcname
        :: List.concat
             (map snd
                (sort_by_name
                   ((fix sub (l : list (string * node)) : list (string * list member) :=
                       match l with
                       | [] => []
                       | (k, c) :: l' => (k, tar_add c (arcname ++ [k])) :: sub l'
                       end) es)))
  end.

(** ** Unpacking a tar member: [TarFile.extract(member, path=dest_dir)]

    The directories above the target are created when absent; a file member
    is then written, a directory member created. *)
Definition tar_extract (m : member) (dest_dir : path) : M unit :=
  let targetpath := dest_dir ++ arcname_of m in
  let upperdirs := parent targetpath in
  fs <- get_fs ;;
  (if FS.exists_ fs upperdirs then ret tt
   else update (fun fs => FS.mkdir_parents fs upperdirs)) ;;;
  match m with
  | MFile _ d => update (fun fs => FS.write_bytes fs targetpath d)
  | MDir _ => update (fun fs => FS.mkdir_parents fs targetpath)
  end.

(** [TarFile.extractall(path=dest_dir)] *)
Definition tar_extractall (members : list member) (dest_dir : path) : M unit :=
  for_each members tt (fun member _ => tar_extract member dest_dir).

Section Operations.

Variable L : Libs.

(** ** The codec adapter *)

(** [compress_with_zstd(data, output_path, show_progress)] *)
Definition compress_with_zstd (data : bytes) (output_path : path)
           (show_progress : bool) : M unit :=
  let compressor := zc_new L in
  if show_progress then
    let total := List.length data in
    st <- for_each (range_step total chunk_size) (compressor, [])
            (fun i (st : ZstdCompressor L * bytes) =>
               let '(compressor, compressed) := st in
               let chunk := slice data i (i + chunk_size) in
               let '(compressor', o) := zc_compress L compressor chunk in
               emit (print_progress (Z.of_nat (Nat.min (i + chunk_size) total))
                                    (Z.of_nat total) lbl_compress) ;;;
               ret (compressor', compressed ++ o)) ;;
    let '(compressor, compressed) := st in
    let compressed := compressed ++ zc_flush L compressor in
    emit (print_progress (Z.of_nat total) (Z.of_nat total) lbl_compress) ;;;
    print_newline ;;;
    update (fun fs => FS.write_bytes fs output_path compressed)
  else
    let '(compressor', o) := zc_compress L compressor data in
    let compressed := o ++ zc_flush L compressor' in
    update (fun fs => FS.write_bytes fs output_path compressed).

(** [compress_with_bz2(data, output_path, show_progress)] *)
Definition compress_with_bz2 (data : bytes) (output_path : path)
           (show_progress : bool) : M unit :=
  if show_progress then
    let total := List.length data in
    let compressed := bz2_compress L data in
    emit (print_progress (Z.of_nat total) (Z.of_nat total) lbl_compress) ;;;
    print_newline ;;;
    update (fun fs => FS.write_bytes fs output_path compressed)
  else
    let compressed := bz2_compress L data in
    update (fun fs => FS.write_bytes fs output_path compressed).

(** [decompress_zstd(input_path, show_progress)] *)
Definition decompress_zstd (input_path : path) (show_progress : bool) : M bytes :=
  let decompressor := zd_new L in
  data <- query (fun fs => FS.read_bytes fs input_path) ;;
  if show_progress then
    let total := List.length data in
    st <- for_each (range_step total chunk_size) (decompressor, [])
            (fun i (st : ZstdDecompressor L * bytes) =>
               let '(decompressor, decompressed) := st in
               let chunk := slice data i (i + chunk_size) in
               r <- lift (zd_decompress L decompressor chunk) ;;
               emit (print_progress (Z.of_nat (Nat.min (i + chunk_size) total))
                                    (Z.of_nat total) lbl_extract) ;;;
               ret (fst r, decompressed ++ snd r)) ;;
    emit (print_progress (Z.of_nat total) (Z.of_nat total) lbl_extract) ;;;
    print_newline ;;;
    ret (snd st)
  else
    r <- lift (zd_decompress L decompressor data) ;;
    ret (snd r).

(** [decompress_bz2(input_path, show_progress)] *)
Definition decompress_bz2 (input_path : path) (show_progress : bool) : M bytes :=
  data <- query (fun fs => FS.read_bytes fs input_path) ;;
  if show_progress then
    let total := List.length data in
    decompressed <- lift (bz2_decompress L data) ;;
    emit (print_progress (Z.of_nat total) (Z.of_nat total) lbl_extract) ;;;
    print_newline ;;;
    ret decompressed
  else
    lift (bz2_decompress L data).

End Operations.

(** ** The orchestrator *)

(** [Optional[float]]: [None], or the elapsed seconds of a benchmark run
    (the value of the clock is not modelled). *)
Inductive returned := NoResult | ElapsedSeconds.

Definition is_tar (c : container) : bool :=
  match c with Tar => true | Single => false end.

(** The sum of the sizes of the regular files under a directory:
    [sum(f.stat().st_size for f in src.rglob('*') if f.is_file())]. *)
Definition tree_size (fs : node) (p : path) : nat :=
  fold_left (fun s (t : FS.triple) =>
               fold_left (fun s' (f : string * bytes) => (s' + List.length (snd f))%nat)
                         (snd t) s)
            (walk_at fs p) 0%nat.

Section Orchestrator.

Variable L : Libs.

(** [with tarfile.open(dst, "w:bz2") as tar: tar.add(src, arcname=src.name)].
    Opening creates or truncates [dst]; the source is read after that; the
    stream is complete in [dst] when the [with] block is left. *)
Definition tar_bz2_add (src dst : path) : M unit :=
  update (fun fs => FS.write_bytes fs dst []) ;;;
  members <- query (fun fs =>
                      match FS.lookup fs src with
                      | Some n => Ok (tar_add n [name src])
                      | None => Raise IOError
                      end) ;;
  update (fun fs => FS.write_bytes fs dst (tar_bz2_write L members)).

(** Lines 186-203: the size of the archive is reported when it exists,
    with the source size when benchmarking. *)
Definition archive_report (src dst : path) (benchmark : bool) : M returned :=
  fs <- get_fs ;;
  if FS.exists_ fs dst then
    size <- query (fun fs => FS.size fs dst) ;;
    if benchmark then
      src_size <- (if FS.is_file fs src then query (fun fs => FS.size fs src)
                   else ret (tree_size fs src)) ;;
      print_out (ArchiveBenchmark src_size size) ;;;
      ret ElapsedSeconds
    else
      print_out (ArchiveCreated dst size) ;;;
      ret NoResult
  else ret NoResult.

Definition archive_body (src dst : path) (archive_type : container)
           (compression : codec) (progress benchmark : bool) : M returned :=
  match archive_type with
  | Tar =>
      members <-
        (if progress then
           total_files <- query (fun fs => Ok (count_files fs src)) ;;
           print_out (FileCount total_files) ;;;
           members <- query (fun fs => Ok (create_tar_archive fs src)) ;;
           emit (print_progress (Z.of_nat total_files) (Z.of_nat total_files)
                                lbl_archive) ;;;
           print_newline ;;;
           ret members
         else
           query (fun fs => Ok (create_tar_archive fs src))) ;;
      let data := tar_write L members in
      match compression with
      | Zst => compress_with_zstd L data dst progress
      | Bz2 =>
          if progress then
            emit (print_progress 0 1 lbl_compress) ;;;
            tar_bz2_add src dst ;;;
            emit (print_progress 1 1 lbl_compress) ;;;
            print_newline
          else
            tar_bz2_add src dst
      end
  | Single =>
      total_size <-
        (if progress then
           total_size <- query (fun fs => FS.size fs src) ;;
           print_out (FileSize total_size) ;;;
           emit (print_progress 0 (Z.of_nat total_size) lbl_archive) ;;;
           ret total_size
         else ret 0%nat) ;;
      data <- query (fun fs => FS.read_bytes fs src) ;;
      (if progress then
         emit (print_progress (Z.of_nat total_size) (Z.of_nat total_size)
                              lbl_archive) ;;;
         print_newline
       else ret tt) ;;;
      match compression with
      | Zst => compress_with_zstd L data dst progress
      | Bz2 => compress_with_bz2 L data dst progress
      end
  end ;;;
  archive_report src dst benchmark.

(** [archive(src, dst, progress, benchmark)] *)
Definition archive (src dst : path) (progress benchmark : bool) : M returned :=
  fs <- get_fs ;;
  if negb (FS.exists_ fs src) then
    print_err (SourceNotFound src) ;;; ret NoResult
  else
    match format_of dst with
    | None => print_err UnsupportedFormat ;;; ret NoResult
    | Some (archive_type, compression) =>
        if FS.is_dir fs src && negb (is_tar archive_type) then
          print_err DirectoryRequiresTar ;;; ret NoResult
        else
          try_except
            (archive_body src dst archive_type compression progress benchmark)
            (fun e => print_err (ArchiveFailed e) ;;; ret NoResult)
    end.

(** The loop over [enumerate(members)] of the progress branches; the
    report after member [i] is [(i + 1 + offset, total)]. *)
Definition extract_members_progress (members : list member) (dest_dir : path)
           (offset total : nat) (prefix : string) : M unit :=
  for_each (enumerate members) tt
    (fun (im : nat * member) _ =>
       tar_extract (snd im) dest_dir ;;;
       emit (print_progress (Z.of_nat (fst im + 1 + offset)) (Z.of_nat total) prefix)) ;;;
  print_newline.

(** Lines 293-300 *)
Definition extract_report (dest_dir : path) (benchmark : bool) : M returned :=
  if benchmark then
    print_out ExtractBenchmark ;;; ret ElapsedSeconds
  else
    print_out (Extracted dest_dir) ;;; ret NoResult.

Definition extract_body (archive_path dest_dir : path) (archive_type : container)
           (compression : codec) (progress benchmark : bool) : M returned :=
  match archive_type with
  | Tar =>
      match compression with
      | Bz2 =>
          (if progress then emit (print_progress 0 1 lbl_extract) else ret tt) ;;;
          data <- query (fun fs => FS.read_bytes fs archive_path) ;;
          members <- lift (tar_bz2_read L data) ;;
          if progress then
            extract_members_progress members dest_dir 0 (List.length members)
                                     lbl_extract
          else
            tar_extractall members dest_dir
      | Zst =>
          (if progress then emit (print_progress 0 1 lbl_extract_zstd) else ret tt) ;;;
          decompressed <- decompress_zstd L archive_path progress ;;
          (if progress then emit (print_progress 1 2 lbl_extract_tar) else ret tt) ;;;
          members <- lift (tar_read L decompressed) ;;
          if progress then
            extract_members_progress members dest_dir (List.length members)
                                     (List.length members * 2) lbl_extract_tar
          else
            tar_extractall members dest_dir
      end
  | Single =>
      (if progress then emit (print_progress 0 1 lbl_extract) else ret tt) ;;;
      let output_name := Str.stem (name archive_path) in
      let output_path := dest_dir ++ [output_name] in
      data <- match compression with
              | Zst => decompress_zstd L archive_path progress
              | Bz2 => decompress_bz2 L archive_path progress
              end ;;
      update (fun fs => FS.write_bytes fs output_path data) ;;;
      (if progress then emit (print_progress 1 1 lbl_extract) ;;; print_newline
       else ret tt)
  end ;;;
  extract_report dest_dir benchmark.

(** [extract(archive_path, dest_dir, progress, benchmark)].  The
    destination directory is created before the [try] block is entered. *)
Definition extract (archive_path dest_dir : path) (progress benchmark : bool)
  : M returned :=
  fs <- get_fs ;;
  if negb (FS.exists_ fs archive_path) then
    print_err (SourceNotFound archive_path) ;;; ret NoResult
  else
    match format_of archive_path with
    | None => print_err UnsupportedFormat ;;; ret NoResult
    | Some (archive_type, compression) =>
        update (fun fs => FS.mkdir_parents fs dest_dir) ;;;
        try_except
          (extract_body archive_path dest_dir archive_type compression
                        progress benchmark)
          (fun e => print_err (ExtractFailed e) ;;; ret NoResult)
    end.

End Orchestrator.

(** ** The command line (lines 307-346)

    [argparse] is not modelled: [main] is given what it parses. *)

(** What [parser.parse_args()] hands to [main]: the command with its
    arguments; the destination of [extract] may be left out. *)
Inductive arguments :=
| ArchiveCommand (source destination : path) (progress benchmark : bool)
| ExtractCommand (archive_path : path) (destination : option path)
                 (progress benchmark : bool).

(** [default=Path(".")]: the working directory, the root of the tree. *)
Definition destination_or_default (destination : option path) : path :=
  match destination with
  | Some p => p
  | None => []
  end.

(** Lines 341-346 of [main]: the command is run and its result dropped. *)
Definition main (L : Libs) (args : arguments) : M unit :=
  match args with
  | ArchiveCommand source destination progress benchmark =>
      archive L source destination progress benchmark ;;; ret tt
  | ExtractCommand archive_path destination progress benchmark =>
      extract L archive_path (destination_or_default destination) progress benchmark ;;;
      ret tt
  end.

(** ** A concrete instance of the libraries

    Small stand-ins for bz2, zstd and tarfile, used to run the operations on
    concrete inputs and to show that the laws assumed of the real libraries
    can be met.  The codecs put a one-byte magic number in front of the data;
    the tar format is a length-prefixed listing of the members. *)

Module Toy.

Definition bz2_magic : byte := x42.
Definition zstd_magic : byte := x28.

Definition bz2_compress (d : bytes) : bytes := bz2_magic :: d.

Definition bz2_decompress (d : bytes) : res bytes :=
  match d with
  | b :: d' => if Byte.eqb b bz2_magic then Ok d' else Raise CodecError
  | [] => Raise CodecError
  end.

(** The compressor remembers whether the frame has been opened. *)
Definition zc_compress (started : bool) (d : bytes) : bool * bytes :=
  match d with
  | [] => (started, [])
  | _ :: _ => if started then (true, d) else (true, zstd_magic :: d)
  end.

Definition zc_flush (started : bool) : bytes :=
  if started then [] else [zstd_magic].

Definition zd_decompress (started : bool) (d : bytes) : res (bool * bytes) :=
  if started then Ok (true, d)
  else
    match d with
    | [] => Ok (false, [])
    | b :: d' => if Byte.eqb b zstd_magic then Ok (true, d') else Raise CodecError
    end.

(** Numbers in unary, byte strings and lists with their length in front. *)
Fixpoint enc_nat (n : nat) : bytes :=
  match n with
  | O => [x00]
  | S n' => x01 :: enc_nat n'
  end.

Fixpoint dec_nat (bs : bytes) : option (nat * bytes) :=
  match bs with
  | b :: r =>
      if Byte.eqb b x00 then Some (O, r)
      else if Byte.eqb b x01 then
        match dec_nat r with
        | Some (n, r') => Some (S n, r')
        | None => None
        end
      else None
  | [] => None
  end.

Definition enc_bytes (d : bytes) : bytes := enc_nat (List.length d) ++ d.

Definition dec_bytes (bs : bytes) : option (bytes * bytes) :=
  match dec_nat bs with
  | Some (n, r) =>
      if (n <=? List.length r)%nat then Some (firstn n r, skipn n r) else None
  | None => None
  end.

Definition enc_string (s : string) : bytes := enc_bytes (list_byte_of_string s).

Definition dec_string (bs : bytes) : option (string * bytes) :=
  match dec_bytes bs with
  | Some (d, r) => Some (string_of_list_byte d, r)
  | None => None
  end.

Section Lists.
Variable A : Type.
Variable enc : A -> bytes.
Variable dec : bytes -> option (A * bytes).

Definition enc_list (l : list A) : bytes :=
  enc_nat (List.length l) ++ flat_map enc l.

Fixpoint dec_seq (n : nat) (bs : bytes) : option (list A * bytes) :=
  match n with
  | O => Some ([], bs)
  | S n' =>
      match dec bs with
      | Some (x, r) =>
          match dec_seq n' r with
          | Some (xs, r') => Some (x :: xs, r')
          | None => None
          end
      | None => None
      end
  end.

Definition dec_list (bs : bytes) : option (list A * bytes) :=
  match dec_nat bs with
  | Some (n, r) => dec_seq n r
  | None => None
  end.
End Lists.

Definition enc_path : path -> bytes := enc_list enc_string.
Definition dec_path : bytes -> option (path * bytes) := dec_list dec_string.

Definition enc_member (m : member) : bytes :=
  match m with
  | MFile p d => x01 :: enc_path p ++ enc_bytes d
  | MDir p => x02 :: enc_path p
  end.

Definition dec_member (bs : bytes) : option (member * bytes) :=
  match bs with
  | b :: r =>
      if Byte.eqb b x01 then
        match dec_path r with
        | Some (p, r1) =>
            match dec_bytes r1 with
            | Some (d, r2) => Some (MFile p d, r2)
            | None => None
            end
        | None => None
        end
      else if Byte.eqb b x02 then
        match dec_path r with
        | Some (p, r1) => Some (MDir p, r1)
        | None => None
        end
      else None
  | [] => None
  end.

Definition tar_write (ms : list member) : bytes := enc_list enc_member ms.

Definition tar_read (bs : bytes) : res (list member) :=
  match dec_list dec_member bs with
  | Some (ms, []) => Ok ms
  | _ => Raise TarError
  end.

Definition tar_bz2_write (ms : list member) : bytes := bz2_compress (tar_write ms).

Definition tar_bz2_read (bs : bytes) : res (list member) :=
  match bz2_decompress bs with
  | Ok d => tar_read d
  | Raise e => Raise e
  end.

Definition libs : Libs :=
  Build_Libs bz2_compress bz2_decompress
             false zc_compress zc_flush
             false zd_decompress
             tar_write tar_read tar_bz2_write tar_bz2_read.

End Toy.

(** ** What is assumed of the external libraries *)

(** The bytes the one-shot path writes: [compressor.compress(data) +
    compressor.flush()] on a new compressor. *)
Definition zstd_frame (L : Libs) (data : bytes) : bytes :=
  let '(c, o) := zc_compress L (zc_new L) data in o ++ zc_flush L c.

(** Feeding a decompressor piece by piece and joining what it returns. *)
Fixpoint zd_feed (L : Libs) (s : ZstdDecompressor L) (chunks : list bytes)
  : res bytes :=
  match chunks with
  | [] => Ok []
  | c :: cs =>
      match zd_decompress L s c with
      | Ok (s', o) =>
          match zd_feed L s' cs with
          | Ok o' => Ok (o ++ o')
          | Raise e => Raise e
          end
      | Raise e => Raise e
      end
  end.


(** Decompression inverts compression, and unpacking a tar stream gives
    back the members that were packed. *)
Record RoundTrips (L : Libs) : Prop := {
  bz2_round_trip : forall d, bz2_decompress L (bz2_compress L d) = Ok d;
  zstd_round_trip : forall d,
      exists s, zd_decompress L (zd_new L) (zstd_frame L d) = Ok (s, d);
  zstd_round_trip_chunked : forall d chunks,
      List.concat chunks = zstd_frame L d ->
      Forall (fun c => c <> []) chunks ->
      zd_feed L (zd_new L) chunks = Ok d;
  tar_round_trip : forall ms, tar_read L (tar_write L ms) = Ok ms;
  tar_bz2_round_trip : forall ms, tar_bz2_read L (tar_bz2_write L ms) = Ok ms
}.

(** ** Reading the output of an operation *)

(** The [(cur, total)] pairs reported during an operation, in order. *)
Fixpoint progress_values (out : list event) : list (Z * Z) :=
  match out with
  | [] => []
  | Progress _ _ _ _ c t :: out' => (c, t) :: progress_values out'
  | _ :: out' => progress_values out'
  end.








Definition is_stderr (e : event) : bool :=
  match e with Stderr _ => true | _ => false end.

(** Nothing was written to the error stream. *)
Definition succeeded (out : list event) : bool := negb (existsb is_stderr out).

(** ** Comparing trees *)

(** What a path shows: nothing, a directory, or a regular file's bytes. *)
Inductive view := Absent | IsDir | IsFile (data : bytes).

Definition view_of (o : option node) : view :=
  match o with
  | None => Absent
  | Some (Dir _) => IsDir
  | Some (File d) => IsFile d
  end.

Definition look (fs : node) (p : path) : view := view_of (FS.lookup fs p).

(** Two trees hold the same regular files: the same relative paths with the
    same bytes. *)
Definition same_files (a b : node) : Prop :=
  forall (p : path) (d : bytes), look a p = IsFile d <-> look b p = IsFile d.


(** * Definitions used in the statements and their proofs *)

Unset Implicit Arguments.

Ltac run :=
  unfold bind, ret, get_fs, print_err, print_out, print_newline, emit, query,
    update, lift, raise, try_except; cbn.

Definition fs_sample : node :=
  Dir [("d", Dir [("a", Dir [("b.txt", File [x68; x69]);
                             ("c", Dir [("d.txt", File [x21])])])]);
       ("f.txt", File [x64; x61; x74; x61]);
       ("out", Dir [])].

Definition fs_file_at_dest : node :=
  Dir [("a.zst", File [x28; x68; x69]); ("notes", File [x6e])].

Fixpoint is_prefix (q p : path) : bool :=
  match q, p with
  | [], _ => true
  | a :: q', b :: p' => String.eqb a b && is_prefix q' p'
  | _ :: _, [] => false
  end.

Definition path_eq_dec : forall p q : path, {p = q} + {p <> q} :=
  list_eq_dec string_dec.

(** The windows the chunked loops cut: [data[i:i + step]] for [i] in
    [range(0, len(data), step)]. *)
Definition chunks_of (step : nat) (data : bytes) : list bytes :=
  map (fun i => slice data i (i + step)) (range_step (List.length data) step).


(** What an action does apart from printing: the file system it leaves and
    the way it ends. *)
Definition effect {A} (x : node * list event * res A) : node * res A :=
  (fst (fst x), snd x).


(** Induction on trees, with the property known of every entry. *)
Fixpoint node_induction (P : node -> Prop)
         (HF : forall d, P (File d))
         (HD : forall es, Forall (fun kc => P (snd kc)) es -> P (Dir es))
         (n : node) : P n :=
  match n with
  | File d => HF d
  | Dir es =>
      HD es ((fix go (l : list (string * node)) : Forall (fun kc => P (snd kc)) l :=
                match l with
                | [] => Forall_nil _
                | kc :: l' => Forall_cons kc (node_induction P HF HD (snd kc)) (go l')
                end) es)
  end.

(** [runs m fs fs' r]: from [fs] the action leaves [fs'] and ends as [r]. *)
Definition runs {A} (m : M A) (fs fs' : node) (r : res A) : Prop :=
  effect (m fs) = (fs', r).

(** What the codec makes of the data. *)
Definition codec_bytes (L : Libs) (c : codec) (d : bytes) : bytes :=
  match c with
  | Zst => zstd_frame L d
  | Bz2 => bz2_compress L d
  end.

(** What [archive] leaves in a tar archive of the members [ms]. *)
Definition tar_bytes (L : Libs) (c : codec) (ms : list member) : bytes :=
  match c with
  | Zst => zstd_frame L (tar_write L ms)
  | Bz2 => tar_bz2_write L ms
  end.

Definition creatable (fs : node) (p : path) : bool :=
  match FS.mkdir_parents fs p with
  | Ok _ => true
  | Raise _ => false
  end.










(** What has been unpacked so far under [dest] is part of the tree [t]. *)
Definition partial_copy (t : node) (dest : path) (fs : node) : Prop :=
  look fs dest = IsDir /\
  forall q, look fs (dest ++ q) = Absent \/ look fs (dest ++ q) = look t q.

(** ** Invariants of runs *)

(** [always I m]: [I] holds of every run of [m], returning or raising. *)
Definition always (I : node -> node -> list event -> Prop) {A} (m : M A) : Prop :=
  forall fs, I fs (fst (fst (m fs))) (snd (fst (m fs))).

(** [archive] writes to its destination and nowhere else. *)
Definition only_at (dst : path) (fs fs' : node) (out : list event) : Prop :=
  (forall q, q <> dst -> look fs' q = look fs q) /\
  (look fs' dst = look fs dst \/ exists d, look fs' dst = IsFile d).

(** Directories stay directories and regular files stay regular files. *)
Definition keeps_kinds (fs fs' : node) (out : list event) : Prop :=
  forall q,
    match look fs q with
    | Absent => True
    | IsDir => look fs' q = IsDir
    | IsFile _ => exists d, look fs' q = IsFile d
    end.

(** Nothing goes to the error stream. *)
Definition quiet (fs fs' : node) (out : list event) : Prop := succeeded out = true.

(** The file system is left as it was. *)
Definition same_fs (fs fs' : node) (out : list event) : Prop := fs' = fs.

(** [on_return Q m]: whenever [m] returns, [Q] holds of the file system it
    leaves. *)
Definition on_return {A} (Q : node -> Prop) (m : M A) : Prop :=
  forall fs, match m fs with
             | (fs', _, Ok _) => Q fs'
             | (_, _, Raise _) => True
             end.

(** [write_bytes] cannot succeed at [dst]. *)
Definition unwritable (dst : path) (fs : node) : Prop :=
  look fs (parent dst) <> IsDir \/ look fs dst = IsDir.

(** With an unwritable destination nothing is changed. *)
Definition blocked_at (dst : path) (fs fs' : node) (out : list event) : Prop :=
  dst <> [] -> unwritable dst fs -> fs' = fs.

(** What a member shows at its name once unpacked. *)
Definition shows (m : member) : view :=
  match m with MFile _ d => IsFile d | MDir _ => IsDir end.


(** The steps of [archive]'s [try] block before the report (lines 142-184). *)
Definition archive_steps (L : Libs) (src dst : path) (archive_type : container)
           (compression : codec) (progress : bool) : M unit :=
  match archive_type with
  | Tar =>
      members <-
        (if progress then
           total_files <- query (fun fs => Ok (count_files fs src)) ;;
           print_out (FileCount total_files) ;;;
           members <- query (fun fs => Ok (create_tar_archive fs src)) ;;
           emit (print_progress (Z.of_nat total_files) (Z.of_nat total_files)
                                lbl_archive) ;;;
           print_newline ;;;
           ret members
         else
           query (fun fs => Ok (create_tar_archive fs src))) ;;
      let data := tar_write L members in
      match compression with
      | Zst => compress_with_zstd L data dst progress
      | Bz2 =>
          if progress then
            emit (print_progress 0 1 lbl_compress) ;;;
            tar_bz2_add L src dst ;;;
            emit (print_progress 1 1 lbl_compress) ;;;
            print_newline
          else
            tar_bz2_add L src dst
      end
  | Single =>
      total_size <-
        (if progress then
           total_size <- query (fun fs => FS.size fs src) ;;
           print_out (FileSize total_size) ;;;
           emit (print_progress 0 (Z.of_nat total_size) lbl_archive) ;;;
           ret total_size
         else ret 0%nat) ;;
      data <- query (fun fs => FS.read_bytes fs src) ;;
      (if progress then
         emit (print_progress (Z.of_nat total_size) (Z.of_nat total_size)
                              lbl_archive) ;;;
         print_newline
       else ret tt) ;;;
      match compression with
      | Zst => compress_with_zstd L data dst progress
      | Bz2 => compress_with_bz2 L data dst progress
      end
  end.

(** No bar is drawn. *)
Definition barless (fs fs' : node) (out : list event) : Prop :=
  progress_values out = [].

(** * Properties *)

(** ** Format dispatch *)

Lemma lower_ascii_idem (c : ascii) :
  Str.lower_ascii (Str.lower_ascii c) = Str.lower_ascii c.
Proof. destruct c as [[] [] [] [] [] [] [] []]; reflexivity. Qed.

Lemma lower_idem (s : string) : Str.lower (Str.lower s) = Str.lower s.
Proof.
  induction s as [|c s IH]; simpl; [reflexivity|].
  now rewrite lower_ascii_idem, IH.
Qed.

Lemma dispatch_table (nm : string) : dispatch nm = Dispatcher nm.
Proof.
  unfold dispatch, Dispatcher, suffix_table, first_match, Str.endswith2.
  destruct (Str.endswith nm ".tar.zst"), (Str.endswith nm ".tar.bz2");
    reflexivity.
Qed.

Lemma archive_unsupported (L : Libs) (fs : node) (src dst : path) (pr bm : bool) :
  FS.exists_ fs src = true ->
  format_of dst = None ->
  archive L src dst pr bm fs = (fs, [Stderr UnsupportedFormat], Ok NoResult).
Proof.
  intros Hs Hf. unfold archive. run. rewrite Hs, Hf. reflexivity.
Qed.

Lemma extract_unsupported (L : Libs) (fs : node) (archive_path dest : path)
      (pr bm : bool) :
  FS.exists_ fs archive_path = true ->
  format_of archive_path = None ->
  extract L archive_path dest pr bm fs = (fs, [Stderr UnsupportedFormat], Ok NoResult).
Proof.
  intros Hs Hf. unfold extract. run. rewrite Hs, Hf. reflexivity.
Qed.

(** C3.  The format of a name is the first row of the suffix table
    (.tar.zst, .tar.bz2, .zst, .bz2, in this order) that its lower-cased form
    ends with; when no row matches, [archive] (the name being the destination)
    and [extract] (the name being the archive) report [UnsupportedFormat],
    return no result and leave the file system as it was. *)
Theorem dispatcher_follows_suffix_table :
  forall (L : Libs) (fs : node) (p other : path) (progress benchmark : bool),
    format_of p = Dispatcher (Str.lower (name p)) /\
    (Dispatcher (Str.lower (name p)) = None ->
     (FS.exists_ fs other = true ->
      archive L other p progress benchmark fs
      = (fs, [Stderr UnsupportedFormat], Ok NoResult)) /\
     (FS.exists_ fs p = true ->
      extract L p other progress benchmark fs
      = (fs, [Stderr UnsupportedFormat], Ok NoResult))).
Proof.
  intros L fs p other pr bm.
  assert (E : format_of p = Dispatcher (Str.lower (name p)))
    by apply dispatch_table.
  split; [exact E|]. intro HN. rewrite HN in E. split; intro Hex.
  - now apply archive_unsupported.
  - now apply extract_unsupported.
Qed.

Example dispatch_rows :
  map Dispatcher ["a.tar.zst"; "a.tar.bz2"; "a.zst"; "a.bz2"; "data.xyz"; "tar.zst"]
  = [Some (Tar, Zst); Some (Tar, Bz2); Some (Single, Zst); Some (Single, Bz2);
     None; Some (Single, Zst)].
Proof. reflexivity. Qed.

(** C9.  [archive] lower-cases the destination name before the suffix
    tests: a destination gets the format of its lower-case spelling, and two
    names that differ only in letter case get the same format. *)
Theorem archive_dispatch_ignores_case :
  forall (dir dir' : path) (nm nm' : string),
    format_of (dir ++ [nm]) = format_of (dir ++ [Str.lower nm]) /\
    (Str.lower nm' = Str.lower nm ->
     format_of (dir' ++ [nm']) = format_of (dir ++ [nm])).
Proof.
  intros dir dir' nm nm'. unfold format_of, name.
  rewrite !last_last. split.
  - now rewrite lower_idem.
  - intros ->. reflexivity.
Qed.

Example upper_case_destination :
  format_of ["backup"; "X.TAR.ZST"] = Some (Tar, Zst) /\
  format_of ["X.Tar.Bz2"] = Some (Tar, Bz2) /\
  format_of ["X.ZST"] = Some (Single, Zst) /\
  format_of ["X.bZ2"] = Some (Single, Bz2).
Proof. repeat split. Qed.

(** ** The progress renderer *)





Example print_progress_cases :
  print_progress 3 0 lbl_compress = [] /\
  print_progress 3 (-2) lbl_compress = [] /\
  print_progress 1 4 lbl_compress = [Progress lbl_compress 12 38 (1 # 4) 1 4] /\
  print_progress 9 4 lbl_compress = [Progress lbl_compress 50 0 1 9 4].
Proof. repeat split. Qed.

(** ** Validation *)

Lemma is_dir_exists (fs : node) (p : path) :
  FS.is_dir fs p = true -> FS.exists_ fs p = true.
Proof.
  unfold FS.is_dir, FS.exists_. destruct (FS.lookup fs p); [reflexivity|discriminate].
Qed.

(** C7.  Archiving a directory to a destination with a raw suffix (.bz2 or
    .zst) reports [DirectoryRequiresTar], returns no result and leaves the
    file system as it was: nothing is created at the destination. *)
Theorem directory_source_requires_tar :
  forall (L : Libs) (fs : node) (src dst : path) (compression : codec)
         (progress benchmark : bool),
    FS.is_dir fs src = true ->
    format_of dst = Some (Single, compression) ->
    archive L src dst progress benchmark fs
    = (fs, [Stderr DirectoryRequiresTar], Ok NoResult).
Proof.
  intros L fs src dst c pr bm Hd Hf. unfold archive. run.
  rewrite (is_dir_exists _ _ Hd), Hf, Hd. reflexivity.
Qed.

(** C7 at a concrete input: the directory [d] archived to [out/d.zst]. *)
Lemma directory_source_requires_tar_witness :
  archive Toy.libs ["d"] ["out"; "d.zst"] true false fs_sample
  = (fs_sample, [Stderr DirectoryRequiresTar], Ok NoResult).
Proof.
  apply (@directory_source_requires_tar Toy.libs fs_sample ["d"] ["out"; "d.zst"] Zst);
    reflexivity.
Defined.

(** C8.  When the source path does not exist, [archive] and [extract]
    report [SourceNotFound], return no result and leave the file system as
    it was: no output file and no destination directory is created. *)
Theorem missing_source_not_found :
  forall (L : Libs) (fs : node) (p q : path) (progress benchmark : bool),
    FS.exists_ fs p = false ->
    archive L p q progress benchmark fs
    = (fs, [Stderr (SourceNotFound p)], Ok NoResult) /\
    extract L p q progress benchmark fs
    = (fs, [Stderr (SourceNotFound p)], Ok NoResult).
Proof.
  intros L fs p q pr bm H. unfold archive, extract. run. rewrite H. now split.
Qed.

(** C8 at a concrete input: [nope.txt] does not exist. *)
Lemma missing_source_not_found_witness :
  archive Toy.libs ["nope.txt"] ["out"; "n.zst"] false true fs_sample
  = (fs_sample, [Stderr (SourceNotFound ["nope.txt"])], Ok NoResult) /\
  extract Toy.libs ["nope.txt"] ["out"; "n.zst"] false true fs_sample
  = (fs_sample, [Stderr (SourceNotFound ["nope.txt"])], Ok NoResult).
Proof.
  apply (@missing_source_not_found Toy.libs fs_sample ["nope.txt"] ["out"; "n.zst"]).
  reflexivity.
Defined.

(** ** Exceptions *)

Lemma try_except_returns {A} (body : M A) (handler : exn -> M A) (fs : node) :
  (forall e fs1, exists fs2 out a, handler e fs1 = (fs2, out, Ok a)) ->
  exists fs' out a, try_except body handler fs = (fs', out, Ok a).
Proof.
  intro H. unfold try_except.
  destruct (body fs) as [[fs1 out1] [a|e]]; [eauto|].
  destruct (H e fs1) as (fs2 & out2 & a & ->). eauto.
Qed.

(** [archive] returns whatever happens inside it. *)
Lemma archive_never_raises (L : Libs) (src dst : path) (pr bm : bool) (fs : node) :
  exists fs' out r, archive L src dst pr bm fs = (fs', out, Ok r).
Proof.
  unfold archive.
  unfold bind at 1. unfold get_fs at 1.
  destruct (negb (FS.exists_ fs src)); [run; eauto|].
  destruct (format_of dst) as [[t c]|]; [|run; eauto].
  destruct (FS.is_dir fs src && negb (is_tar t)); [run; eauto|].
  destruct (try_except_returns
              (archive_body L src dst t c pr bm)
              (fun e => print_err (ArchiveFailed e) ;;; ret NoResult) fs)
    as (fs' & out & a & E).
  - intros e fs1. run. eauto.
  - rewrite E. cbn. eauto.
Qed.

(** [extract] raises exactly when the destination directory cannot be
    created: [mkdir] stands before the [try] block. *)
Lemma extract_raises_iff (L : Libs) (archive_path dest : path) (pr bm : bool)
      (fs : node) (e : exn) :
  (exists fs' out, extract L archive_path dest pr bm fs = (fs', out, Raise e)) <->
  (FS.exists_ fs archive_path = true /\ format_of archive_path <> None /\
   FS.mkdir_parents fs dest = Raise e).
Proof.
  unfold extract. unfold bind at 1. unfold get_fs at 1.
  destruct (FS.exists_ fs archive_path); cbn [negb].
  2:{ run. split; [intros (? & ? & [=])|intros ([=] & _)]. }
  destruct (format_of archive_path) as [[t c]|].
  2:{ run. split; [intros (? & ? & [=])|intros (_ & H & _); now destruct H]. }
  unfold bind at 1. unfold update at 1.
  destruct (FS.mkdir_parents fs dest) as [fs1|e'].
  - destruct (try_except_returns
                (extract_body L archive_path dest t c pr bm)
                (fun e => print_err (ExtractFailed e) ;;; ret NoResult) fs1)
      as (fs' & out & a & E).
    + intros e0 fs2. run. eauto.
    + rewrite E. cbn. split; [intros (? & ? & [=])|intros (_ & _ & [=])].
  - cbn. split.
    + intros (? & ? & [= _ _ ->]). repeat split; congruence.
    + intros (_ & _ & [= ->]). eauto.
Qed.

(** C5 (evaluation).  Extracting into a path that is a regular file raises
    at [dest_dir.mkdir], outside the [try] block: the exception reaches the
    caller, nothing is printed. *)
Theorem extract_lets_mkdir_failure_escape :
  forall (L : Libs) (progress benchmark : bool),
    extract L ["a.zst"] ["notes"] progress benchmark fs_file_at_dest
    = (fs_file_at_dest, [], Raise IOError).
Proof. intros L pr bm. reflexivity. Qed.

(** ** The file system, seen through [look] *)

Lemma is_prefix_spec (q p : path) :
  is_prefix q p = true <-> exists r, p = q ++ r.
Proof.
  revert p. induction q as [|a q IH]; intro p; simpl.
  - split; eauto.
  - destruct p as [|b p].
    + split; [discriminate|intros (r & [=])].
    + rewrite andb_true_iff, String.eqb_eq, IH. split.
      * intros (-> & r & ->). eauto.
      * intros (r & [= -> ->]). eauto.
Qed.

Lemma is_prefix_refl (p : path) : is_prefix p p = true.
Proof. apply is_prefix_spec. exists []. now rewrite app_nil_r. Qed.

Lemma is_prefix_app (p r : path) : is_prefix p (p ++ r) = true.
Proof. apply is_prefix_spec. eauto. Qed.

Lemma assoc_set_entry (k k' : string) (v : node) (es : list (string * node)) :
  FS.assoc k (FS.set_entry k' v es)
  = if String.eqb k k' then Some v else FS.assoc k es.
Proof.
  induction es as [|[k0 v0] es IH]; simpl.
  - destruct (String.eqb k k'); reflexivity.
  - destruct (String.eqb k' k0) eqn:E0; simpl.
    + apply String.eqb_eq in E0. subst k0.
      destruct (String.eqb k k'); reflexivity.
    + rewrite IH. destruct (String.eqb k k0) eqn:E1; [|reflexivity].
      apply String.eqb_eq in E1. subst k0.
      destruct (String.eqb k k') eqn:E2; [|reflexivity].
      apply String.eqb_eq in E2. subst k'.
      rewrite String.eqb_refl in E0. discriminate.
Qed.

Lemma look_file (d : bytes) (p : path) :
  look (File d) p = if path_eq_dec p [] then IsFile d else Absent.
Proof. destruct p; reflexivity. Qed.

Lemma look_cons (es : list (string * node)) (k : string) (p : path) :
  look (Dir es) (k :: p)
  = match FS.assoc k es with Some c => look c p | None => Absent end.
Proof. unfold look. simpl. destruct (FS.assoc k es); reflexivity. Qed.

(** Whatever lies below a path lies in a directory. *)
Lemma look_above (fs : node) (a b : path) :
  look fs (a ++ b) <> Absent -> b <> [] -> look fs a = IsDir.
Proof.
  revert fs. induction a as [|k a IH]; intros fs H Hb.
  - destruct fs as [d|es]; [|reflexivity].
    simpl in H. rewrite look_file in H.
    destruct (path_eq_dec b []); [contradiction|now destruct H].
  - simpl in H. destruct fs as [d|es]; [now destruct H|].
    rewrite look_cons in *. destruct (FS.assoc k es); [eauto|now destruct H].
Qed.

Lemma write_bytes_look (p : path) :
  forall (fs fs' : node) (d : bytes),
    FS.write_bytes fs p d = Ok fs' ->
    forall q, look fs' q = if path_eq_dec q p then IsFile d else look fs q.
Proof.
  induction p as [|k p IH]; intros fs fs' d H q.
  - destruct fs as [d0|es]; [|discriminate]. injection H as <-.
    rewrite !look_file. destruct (path_eq_dec q []); reflexivity.
  - destruct fs as [d0|es]; [discriminate|]. simpl in H.
    destruct q as [|k2 q].
    { destruct (path_eq_dec [] (k :: p)); [discriminate|].
      destruct (FS.assoc k es), p; try discriminate;
        try (destruct (FS.write_bytes _ _ _); [|discriminate]);
        injection H as <-; reflexivity. }
    destruct (FS.assoc k es) as [c|] eqn:Ek.
    + destruct (FS.write_bytes c p d) as [c'|] eqn:Ew; [|discriminate].
      injection H as <-. rewrite !look_cons, assoc_set_entry.
      destruct (String.eqb k2 k) eqn:E.
      * apply String.eqb_eq in E. subst k2. rewrite Ek, (IH _ _ _ Ew).
        destruct (path_eq_dec q p), (path_eq_dec (k :: q) (k :: p));
          congruence.
      * destruct (path_eq_dec (k2 :: q) (k :: p)) as [[= -> _]|]; [|reflexivity].
        rewrite String.eqb_refl in E. discriminate.
    + destruct p; [|discriminate]. injection H as <-.
      rewrite !look_cons, assoc_set_entry.
      destruct (String.eqb k2 k) eqn:E.
      * apply String.eqb_eq in E. subst k2. rewrite Ek, look_file.
        destruct (path_eq_dec q []), (path_eq_dec (k :: q) [k]); congruence.
      * destruct (path_eq_dec (k2 :: q) [k]) as [[= -> _]|]; [|reflexivity].
        rewrite String.eqb_refl in E. discriminate.
Qed.

Lemma parent_cons (k : string) (p : path) :
  p <> [] -> parent (k :: p) = k :: parent p.
Proof. destruct p; [contradiction|reflexivity]. Qed.

Lemma write_bytes_ok (p : path) :
  forall (fs : node) (d : bytes),
    p <> [] -> look fs (parent p) = IsDir -> look fs p <> IsDir ->
    exists fs', FS.write_bytes fs p d = Ok fs'.
Proof.
  induction p as [|k p IH]; intros fs d Hp Hpar Hnd; [contradiction|].
  destruct fs as [d0|es].
  - rewrite look_file in Hpar. destruct (path_eq_dec _ _); discriminate.
  - simpl. destruct p as [|k' p].
    + rewrite look_cons in Hnd.
      destruct (FS.assoc k es) as [[d1|es1]|]; simpl; eauto.
      now destruct Hnd.
    + rewrite parent_cons in Hpar by discriminate.
      rewrite look_cons in Hpar, Hnd.
      destruct (FS.assoc k es) as [c|]; [|discriminate].
      destruct (IH c d ltac:(discriminate) Hpar Hnd) as (c' & ->). eauto.
Qed.

Lemma mkdir_parents_look (p : path) :
  forall (fs fs' : node),
    FS.mkdir_parents fs p = Ok fs' ->
    forall q, look fs' q = if is_prefix q p then IsDir else look fs q.
Proof.
  induction p as [|k p IH]; intros fs fs' H q.
  - destruct fs as [d0|es]; [discriminate|]. injection H as <-.
    destruct q; reflexivity.
  - destruct fs as [d0|es]; [discriminate|]. simpl in H.
    destruct (FS.mkdir_parents _ p) as [c'|] eqn:Em; [|discriminate].
    injection H as <-. destruct q as [|k2 q]; [reflexivity|].
    rewrite !look_cons, assoc_set_entry. simpl.
    destruct (String.eqb k2 k) eqn:E; simpl; [|reflexivity].
    apply String.eqb_eq in E. subst k2. rewrite (IH _ _ Em).
    destruct (is_prefix q p) eqn:Ep; [reflexivity|].
    destruct (FS.assoc k es); [reflexivity|].
    destruct q; [discriminate Ep|reflexivity].
Qed.

Lemma mkdir_parents_ok (p : path) :
  forall (fs : node),
    (forall q d, is_prefix q p = true -> look fs q <> IsFile d) ->
    exists fs', FS.mkdir_parents fs p = Ok fs'.
Proof.
  induction p as [|k p IH]; intros fs H.
  - destruct fs as [d|es]; simpl; eauto. now destruct (H [] d eq_refl).
  - destruct fs as [d|es]; [now destruct (H [] d eq_refl)|]. simpl.
    destruct (IH (match FS.assoc k es with Some c => c | None => Dir [] end))
      as (c' & ->); eauto.
    intros q d Hq. specialize (H (k :: q) d). simpl in H.
    rewrite String.eqb_refl, look_cons in H.
    destruct (FS.assoc k es); [now apply H|]. now destruct q.
Qed.

(** ** Chunking *)

Arguments chunk_size : simpl never.

Lemma chunk_size_pos : (0 < chunk_size)%nat.
Proof. apply Nat.ltb_lt. vm_compute. reflexivity. Qed.

Lemma slice_window {A} (data : list A) (i step : nat) :
  slice data i (i + step) = firstn step (skipn i data).
Proof. unfold slice. f_equal. lia. Qed.

Lemma firstn_plus {A} (a b : nat) (l : list A) :
  firstn (a + b) l = firstn a l ++ firstn b (skipn a l).
Proof.
  revert l. induction a as [|a IH]; intro l; [reflexivity|].
  destruct l as [|x l]; simpl.
  - now rewrite firstn_nil.
  - now rewrite IH.
Qed.

Lemma windows_join {A} (step n : nat) (data : list A) :
  List.concat (map (fun i => firstn step (skipn i data))
                   (map (fun k => k * step)%nat (seq 0 n)))
  = firstn (n * step) data.
Proof.
  induction n as [|n IH]; [reflexivity|].
  rewrite seq_S, !map_app, concat_app, IH. simpl.
  rewrite app_nil_r. replace (step + n * step)%nat with (n * step + step)%nat by lia.
  now rewrite firstn_plus.
Qed.

Lemma ceil_div_covers (len step : nat) :
  (0 < step)%nat -> (len <= (len + step - 1) / step * step)%nat.
Proof.
  intro H.
  pose proof (Nat.div_mod_eq (len + step - 1) step).
  pose proof (Nat.mod_upper_bound (len + step - 1) step ltac:(lia)).
  nia.
Qed.

Lemma ceil_div_inside (len step k : nat) :
  (0 < step)%nat -> (k < (len + step - 1) / step)%nat -> (k * step < len)%nat.
Proof.
  intros H Hk.
  pose proof (Nat.div_mod_eq (len + step - 1) step).
  pose proof (Nat.mod_upper_bound (len + step - 1) step ltac:(lia)).
  nia.
Qed.

(** The windows are the data, cut: joined, they give the data back. *)
Lemma concat_chunks_of (step : nat) (data : bytes) :
  (0 < step)%nat -> List.concat (chunks_of step data) = data.
Proof.
  intro H. unfold chunks_of, range_step.
  rewrite (map_ext _ (fun i => firstn step (skipn i data)))
    by (intro; apply slice_window).
  rewrite windows_join. apply firstn_all2. now apply ceil_div_covers.
Qed.

(** No window is empty. *)
Lemma chunks_of_nonempty (step : nat) (data : bytes) :
  (0 < step)%nat -> Forall (fun c => c <> []) (chunks_of step data).
Proof.
  intro H. unfold chunks_of, range_step. rewrite map_map.
  apply Forall_forall. intros c Hc. apply in_map_iff in Hc.
  destruct Hc as (k & <- & Hk). apply in_seq in Hk.
  rewrite slice_window.
  assert (k * step < List.length data)%nat by (apply ceil_div_inside; lia).
  intro E. apply (f_equal (@List.length _)) in E.
  rewrite length_firstn, length_skipn in E. simpl in E. lia.
Qed.










(** ** The tar builder *)

Lemma walk_dir (root : path) (es : list (string * node)) :
  FS.walk root (Dir es)
  = (root, FS.dirs_of es, FS.files_of es)
      :: flat_map (fun kc => FS.walk (root ++ [fst kc]) (snd kc)) es.
Proof.
  simpl. f_equal. induction es as [|[k c] es IH]; [reflexivity|].
  simpl. now rewrite IH.
Qed.

Lemma members_of_walk_app (a b : list FS.triple) :
  members_of_walk (a ++ b) = members_of_walk a ++ members_of_walk b.
Proof. unfold members_of_walk. apply flat_map_app. Qed.

Lemma in_members_of_flat_map (m : member) (root : path) (es : list (string * node)) :
  In m (members_of_walk (flat_map (fun kc => FS.walk (root ++ [fst kc]) (snd kc)) es))
  <-> exists k c, In (k, c) es /\ In m (members_of_walk (FS.walk (root ++ [k]) c)).
Proof.
  induction es as [|[k c] es IH]; simpl.
  - split; [contradiction|intros (? & ? & [] & _)].
  - rewrite members_of_walk_app, in_app_iff, IH. split.
    + intros [H|(k' & c' & H1 & H2)]; eauto 6.
    + intros (k' & c' & [[= -> ->]|H1] & H2); eauto 6.
Qed.

Lemma in_files_of (k : string) (d : bytes) (es : list (string * node)) :
  In (k, d) (FS.files_of es) <-> In (k, File d) es.
Proof.
  induction es as [|[k0 [d0|es0]] es IH]; simpl.
  - tauto.
  - rewrite IH. split; intros [[= -> ->]|H]; auto.
  - rewrite IH. split; [auto|intros [[=]|H]; auto].
Qed.

Lemma assoc_in (k : string) (c : node) (es : list (string * node)) :
  FS.assoc k es = Some c -> In (k, c) es.
Proof.
  induction es as [|[k0 c0] es IH]; simpl; [discriminate|].
  destruct (String.eqb k k0) eqn:E.
  - apply String.eqb_eq in E. intros [= ->]. subst. auto.
  - auto.
Qed.

Lemma fresh_assoc (k : string) (es : list (string * node)) :
  FS.fresh k es = true -> FS.assoc k es = None.
Proof.
  induction es as [|[k0 c0] es IH]; simpl; [reflexivity|].
  intro H. apply andb_true_iff in H. destruct H as [H1 H2].
  destruct (String.eqb k k0); [discriminate|auto].
Qed.

Lemma wf_dir (es : list (string * node)) (k : string) (c : node) :
  FS.wf (Dir es) = true -> In (k, c) es ->
  FS.assoc k es = Some c /\ FS.wf c = true.
Proof.
  induction es as [|[k0 c0] es IH]; simpl; [contradiction|].
  intros H Hin. apply andb_true_iff in H. destruct H as [H H3].
  apply andb_true_iff in H. destruct H as [H1 H2].
  destruct Hin as [[= -> ->]|Hin].
  - now rewrite String.eqb_refl.
  - destruct (IH H3 Hin) as [Ha Hw]. split; [|exact Hw].
    destruct (String.eqb k k0) eqn:E; [|exact Ha].
    apply String.eqb_eq in E. subst k0.
    rewrite (fresh_assoc _ _ H1) in Ha. discriminate.
Qed.

(** Every regular file of a tree is a member, named by its path. *)
Lemma file_is_member (t : node) :
  forall (root q : path) (d : bytes),
    q <> [] -> look t q = IsFile d ->
    In (MFile (root ++ q) d) (members_of_walk (FS.walk root t)).
Proof.
  induction t as [d0|es IH] using node_induction; intros root q d Hq Hl.
  - rewrite look_file in Hl. destruct (path_eq_dec q []); [contradiction|discriminate].
  - destruct q as [|k q]; [contradiction|]. rewrite look_cons in Hl.
    destruct (FS.assoc k es) as [c|] eqn:Ek; [|discriminate].
    apply assoc_in in Ek. rewrite walk_dir.
    change (members_of_walk (?a :: ?b)) with (members_of_walk ([a] ++ b)).
    rewrite members_of_walk_app, in_app_iff.
    destruct q as [|k' q].
    + left. destruct c as [d1|es1]; [|discriminate]. injection Hl as ->.
      simpl. rewrite app_nil_r. apply in_map_iff.
      exists (k, d). split; [reflexivity|]. now apply in_files_of.
    + right. apply in_members_of_flat_map. exists k, c. split; [exact Ek|].
      rewrite Forall_forall in IH. specialize (IH (k, c) Ek (root ++ [k]) (k' :: q) d).
      simpl in IH. rewrite <- app_assoc in IH. apply IH; [discriminate|exact Hl].
Qed.

(** In a well-formed tree every member is a regular file, named by its
    path. *)
Lemma member_is_file (t : node) :
  forall (root : path) (m : member),
    FS.wf t = true ->
    In m (members_of_walk (FS.walk root t)) ->
    exists q d, m = MFile (root ++ q) d /\ q <> [] /\ look t q = IsFile d.
Proof.
  induction t as [d0|es IH] using node_induction; intros root m Hwf Hin.
  - contradiction.
  - rewrite walk_dir in Hin.
    change (members_of_walk (?a :: ?b)) with (members_of_walk ([a] ++ b)) in Hin.
    rewrite members_of_walk_app, in_app_iff in Hin. destruct Hin as [Hin|Hin].
    + simpl in Hin. rewrite app_nil_r in Hin. apply in_map_iff in Hin.
      destruct Hin as ([k d] & <- & Hin). apply in_files_of in Hin.
      destruct (wf_dir _ _ _ Hwf Hin) as [Ha _].
      exists [k], d. simpl. rewrite look_cons, Ha. repeat split. discriminate.
    + apply in_members_of_flat_map in Hin. destruct Hin as (k & c & Hkc & Hin).
      destruct (wf_dir _ _ _ Hwf Hkc) as [Ha Hw].
      rewrite Forall_forall in IH.
      destruct (IH (k, c) Hkc (root ++ [k]) m Hw Hin) as (q & d & -> & Hq & Hl).
      exists (k :: q), d. rewrite <- app_assoc, look_cons, Ha.
      repeat split; [discriminate|exact Hl].
Qed.

(** ** Running actions *)

Lemma runs_ret {A} (a : A) (fs : node) : runs (ret a) fs fs (Ok a).
Proof. reflexivity. Qed.

Lemma runs_bind {A B} (m : M A) (f : A -> M B) (fs fs1 fs2 : node) (a : A)
      (r : res B) :
  runs m fs fs1 (Ok a) -> runs (f a) fs1 fs2 r -> runs (bind m f) fs fs2 r.
Proof.
  unfold runs, effect, bind. intros H1 H2.
  destruct (m fs) as [[x o] y]. injection H1 as -> ->.
  destruct (f a fs1) as [[x o'] y]. exact H2.
Qed.

Lemma runs_emit (out : list event) (fs : node) : runs (emit out) fs fs (Ok tt).
Proof. reflexivity. Qed.

Lemma runs_get (fs : node) : runs get_fs fs fs (Ok fs).
Proof. reflexivity. Qed.

Lemma runs_query {A} (f : node -> res A) (fs : node) : runs (query f) fs fs (f fs).
Proof. reflexivity. Qed.

Lemma runs_lift {A} (r : res A) (fs : node) : runs (lift r) fs fs r.
Proof. reflexivity. Qed.

Lemma runs_update (f : node -> res node) (fs fs' : node) :
  f fs = Ok fs' -> runs (update f) fs fs' (Ok tt).
Proof. unfold runs, update, effect. now intros ->. Qed.

Lemma runs_try {A} (body : M A) (handler : exn -> M A) (fs fs' : node) (a : A) :
  runs body fs fs' (Ok a) -> runs (try_except body handler) fs fs' (Ok a).
Proof.
  unfold runs, effect, try_except. intro H.
  destruct (body fs) as [[x o] y]. injection H as -> ->. reflexivity.
Qed.

Lemma runs_of_effect {A} (m m' : M A) (fs fs' : node) (r : res A) :
  effect (m fs) = effect (m' fs) -> runs m' fs fs' r -> runs m fs fs' r.
Proof. unfold runs. now intros ->. Qed.

Lemma runs_progress_if (b : bool) (out : list event) (fs : node) :
  runs (if b then emit out else ret tt) fs fs (Ok tt).
Proof. destruct b; reflexivity. Qed.

(** ** Unpacking *)

Lemma look_below (fs b : node) (a q : path) :
  FS.lookup fs a = Some b -> look fs (a ++ q) = look b q.
Proof.
  revert fs. induction a as [|k a IH]; intros fs H.
  - now injection H as ->.
  - simpl in H. destruct fs as [d|es]; [discriminate|].
    simpl. rewrite look_cons. destruct (FS.assoc k es); [auto|discriminate].
Qed.

Lemma parent_app (a p : path) : p <> [] -> parent (a ++ p) = a ++ parent p.
Proof. intro H. unfold parent. now apply removelast_app. Qed.

Lemma is_prefix_app_same (a q p : path) :
  is_prefix (a ++ q) (a ++ p) = is_prefix q p.
Proof.
  induction a as [|k a IH]; [reflexivity|]. simpl. now rewrite String.eqb_refl.
Qed.

(** Above a path that shows something there are only directories. *)
Lemma look_prefix (fs : node) (x p : path) :
  is_prefix x p = true -> look fs p = IsDir -> look fs x = IsDir.
Proof.
  intros Hx Hp. apply is_prefix_spec in Hx. destruct Hx as (r & ->).
  destruct r as [|k r]; [now rewrite app_nil_r in Hp|].
  apply (look_above fs x (k :: r)); [|discriminate]. rewrite Hp. discriminate.
Qed.

Section Unpack.

(** The tree [t] being restored under [dest]. *)
Variable t : node.
Variable dest : path.

Lemma tar_extract_file (fs : node) (p : path) (d : bytes) :
  partial_copy t dest fs -> p <> [] -> look t p = IsFile d ->
  exists fs',
    tar_extract (MFile p d) dest fs = (fs', [], Ok tt) /\
    partial_copy t dest fs' /\
    look fs' (dest ++ p) = IsFile d /\
    (forall x, look fs x <> Absent -> look fs' x <> Absent).
Proof.
  intros [Hd HJ] Hp Hl.
  assert (Hpar : look t (parent p) = IsDir).
  { apply (look_above t (parent p) [last p ""]); [|discriminate].
    unfold parent. rewrite <- app_removelast_last by exact Hp. now rewrite Hl. }
  unfold tar_extract. cbn [arcname_of]. rewrite parent_app by exact Hp.
  set (upper := dest ++ parent p).
  (* the directories above the target *)
  assert (Hup : exists fs1,
             (if FS.exists_ fs upper then ret tt
              else update (fun fs => FS.mkdir_parents fs upper)) fs
             = (fs1, [], Ok tt) /\
             forall x, look fs1 x = if is_prefix x upper then IsDir else look fs x).
  { destruct (FS.exists_ fs upper) eqn:Ex.
    - exists fs. split; [reflexivity|]. intro x.
      destruct (is_prefix x upper) eqn:Ep; [|reflexivity].
      apply (look_prefix fs x upper Ep). unfold FS.exists_ in Ex.
      destruct (HJ (parent p)) as [H|H]; fold upper in H.
      + unfold look in H. destruct (FS.lookup fs upper) as [[]|]; discriminate.
      + now rewrite H.
    - destruct (mkdir_parents_ok upper fs) as (fs1 & Hm).
      { intros q d0 Hq Hf. unfold upper in Hq.
        destruct (is_prefix q dest) eqn:Eqd.
        - rewrite (look_prefix fs q dest Eqd Hd) in Hf. discriminate.
        - apply is_prefix_spec in Hq. destruct Hq as (r & Hr).
          assert (exists q', q = dest ++ q' /\ is_prefix q' (parent p) = true)
            as (q' & -> & Hq').
          { clear - Hr Eqd. revert q Hr Eqd.
            induction dest as [|k dd IH]; intros q Hr Eqd.
            - exists q. split; [reflexivity|]. apply is_prefix_spec. eauto.
            - destruct q as [|k' q]; [discriminate|]. simpl in *.
              injection Hr as -> Hr. rewrite String.eqb_refl in Eqd. simpl in Eqd.
              destruct (IH q Hr Eqd) as (q' & -> & Hq'). eauto. }
          destruct (HJ q') as [H|H]; rewrite H in Hf; [discriminate|].
          rewrite (look_prefix t q' (parent p) Hq' Hpar) in Hf. discriminate. }
      exists fs1. unfold update. rewrite Hm. split; [reflexivity|].
      exact (mkdir_parents_look _ _ _ Hm). }
  destruct Hup as (fs1 & Hrun & Hfs1).
  assert (Hd1 : look fs1 dest = IsDir).
  { rewrite Hfs1. unfold upper. now rewrite is_prefix_app. }
  assert (HJ1 : forall q, look fs1 (dest ++ q) = Absent
                          \/ look fs1 (dest ++ q) = look t q).
  { intro q. rewrite Hfs1. unfold upper. rewrite is_prefix_app_same.
    destruct (is_prefix q (parent p)) eqn:Eq; [|apply HJ].
    right. symmetry. exact (look_prefix t q (parent p) Eq Hpar). }
  destruct (write_bytes_ok (dest ++ p) fs1 d) as (fs2 & Hw).
  { destruct dest; [exact Hp|discriminate]. }
  { rewrite parent_app by exact Hp. fold upper. rewrite Hfs1.
    now rewrite is_prefix_refl. }
  { destruct (HJ1 p) as [H|H]; rewrite H; [discriminate|].
    rewrite Hl. discriminate. }
  pose proof (write_bytes_look _ _ _ _ Hw) as Hfs2.
  exists fs2. split.
  { unfold bind, get_fs. rewrite Hrun. unfold update. rewrite Hw. reflexivity. }
  split; [split|split].
  - rewrite Hfs2. destruct (path_eq_dec dest (dest ++ p)) as [E|]; [|exact Hd1].
    rewrite <- (app_nil_r dest) in E at 1. apply app_inv_head in E.
    now destruct Hp.
  - intro q. rewrite Hfs2. destruct (path_eq_dec (dest ++ q) (dest ++ p)) as [E|];
      [|apply HJ1].
    apply app_inv_head in E. subst q. right. now rewrite Hl.
  - rewrite Hfs2. now destruct (path_eq_dec (dest ++ p) (dest ++ p)).
  - intros x Hx. rewrite Hfs2. destruct (path_eq_dec x (dest ++ p)); [discriminate|].
    rewrite Hfs1. destruct (is_prefix x upper); [discriminate|exact Hx].
Qed.


End Unpack.

(** ** Effects of the loops with progress display *)

Lemma effect_bind_congr {A B} (m m' : M A) (f f' : A -> M B) (fs : node) :
  effect (m fs) = effect (m' fs) ->
  (forall a fs1, effect (f a fs1) = effect (f' a fs1)) ->
  effect (bind m f fs) = effect (bind m' f' fs).
Proof.
  unfold effect, bind. intros H Hf.
  destruct (m fs) as [[fs1 o1] r1], (m' fs) as [[fs1' o1'] r1'].
  injection H as <- <-. destruct r1 as [a|e]; [|reflexivity].
  specialize (Hf a fs1).
  destruct (f a fs1) as [[? ?] ?], (f' a fs1) as [[? ?] ?]. exact Hf.
Qed.

Lemma effect_then_emit {A} (m : M A) (out : list event) (fs : node) :
  effect ((_ <- m ;; emit out) fs) = effect ((_ <- m ;; ret tt) fs).
Proof. apply effect_bind_congr; reflexivity. Qed.

Lemma effect_bind_ret_tt (m : M unit) (fs : node) :
  effect ((_ <- m ;; ret tt) fs) = effect (m fs).
Proof.
  unfold effect, bind, ret. destruct (m fs) as [[fs1 o1] [[]|e]]; reflexivity.
Qed.

(** With or without the progress reports, the members are unpacked alike. *)
Lemma extract_members_progress_effect (members : list member) (dest : path)
      (offset total : nat) (prefix : string) (fs : node) :
  effect (extract_members_progress members dest offset total prefix fs)
  = effect (tar_extractall members dest fs).
Proof.
  unfold extract_members_progress, tar_extractall, enumerate.
  rewrite <- (effect_bind_ret_tt (for_each members tt _) fs).
  apply effect_bind_congr; [|reflexivity].
  set (body := fun (im : nat * member) (_ : unit) => _).
  assert (H : forall a fs,
             effect (for_each (combine (seq a (List.length members)) members) tt body fs)
             = effect (for_each members tt
                                (fun member _ => tar_extract member dest) fs));
    [|apply H].
  clear fs. induction members as [|m ms IH]; intros a fs; [reflexivity|].
  simpl. apply effect_bind_congr.
  - unfold body. cbn [snd fst]. rewrite effect_then_emit. apply effect_bind_ret_tt.
  - intros [] fs1. apply IH.
Qed.

Lemma runs_query_ok {A} (f : node -> res A) (fs : node) (a : A) :
  f fs = Ok a -> runs (query f) fs fs (Ok a).
Proof. intros <-. apply runs_query. Qed.

Lemma runs_lift_ok {A} (r : res A) (fs : node) (a : A) :
  r = Ok a -> runs (lift r) fs fs (Ok a).
Proof. intros ->. apply runs_lift. Qed.

Lemma runs_for_each_decompress (L : Libs) (data : bytes) (total : Z) (fs : node)
      (idxs : list nat) :
  forall (s : ZstdDecompressor L) (acc o : bytes),
    zd_feed L s (map (fun i => slice data i (i + chunk_size)) idxs) = Ok o ->
    exists s',
      runs (for_each idxs (s, acc)
              (fun i (st : ZstdDecompressor L * bytes) =>
                 let '(decompressor, decompressed) := st in
                 let chunk := slice data i (i + chunk_size) in
                 r <- lift (zd_decompress L decompressor chunk) ;;
                 emit (print_progress (Z.of_nat (Nat.min (i + chunk_size)
                                                         (List.length data)))
                                      total lbl_extract) ;;;
                 ret (fst r, decompressed ++ snd r)))
           fs fs (Ok (s', acc ++ o)).
Proof.
  induction idxs as [|i idxs IH]; intros s acc o H.
  - injection H as <-. exists s. rewrite app_nil_r. reflexivity.
  - simpl in H.
    destruct (zd_decompress L s (slice data i (i + chunk_size))) as [[s1 o1]|e] eqn:E;
      [|discriminate].
    destruct (zd_feed L s1 _) as [o2|] eqn:E2; [|discriminate]. injection H as <-.
    destruct (IH s1 (acc ++ o1) o2 E2) as (s' & Hr). exists s'.
    simpl. eapply runs_bind.
    + eapply runs_bind; [apply runs_lift_ok; exact E|].
      eapply runs_bind; [apply runs_emit|apply runs_ret].
    + cbn [fst snd]. now rewrite app_assoc.
Qed.

(** Reading back a zstd frame, in one call or window by window. *)
Lemma runs_decompress_zstd (L : Libs) (HR : RoundTrips L) (p : path) (d : bytes)
      (progress : bool) (fs : node) :
  look fs p = IsFile (zstd_frame L d) ->
  runs (decompress_zstd L p progress) fs fs (Ok d).
Proof.
  intro Hl. unfold decompress_zstd.
  assert (Hread : FS.read_bytes fs p = Ok (zstd_frame L d)).
  { unfold FS.read_bytes. unfold look in Hl.
    destruct (FS.lookup fs p) as [[]|]; try discriminate. now injection Hl as ->. }
  eapply runs_bind; [apply runs_query_ok; exact Hread|].
  destruct progress.
  - destruct (runs_for_each_decompress L (zstd_frame L d)
                (Z.of_nat (List.length (zstd_frame L d))) fs
                (range_step (List.length (zstd_frame L d)) chunk_size)
                (zd_new L) [] d) as (s' & Hr).
    { apply (zstd_round_trip_chunked HR).
      - apply concat_chunks_of, chunk_size_pos.
      - apply chunks_of_nonempty, chunk_size_pos. }
    eapply runs_bind; [exact Hr|].
    eapply runs_bind; [apply runs_emit|].
    eapply runs_bind; [apply runs_emit|]. apply runs_ret.
  - destruct (zstd_round_trip HR d) as (s & E).
    eapply runs_bind; [apply runs_lift_ok; exact E|]. apply runs_ret.
Qed.

Lemma runs_decompress_bz2 (L : Libs) (HR : RoundTrips L) (p : path) (d : bytes)
      (progress : bool) (fs : node) :
  look fs p = IsFile (bz2_compress L d) ->
  runs (decompress_bz2 L p progress) fs fs (Ok d).
Proof.
  intro Hl. unfold decompress_bz2.
  assert (Hread : FS.read_bytes fs p = Ok (bz2_compress L d)).
  { unfold FS.read_bytes. unfold look in Hl.
    destruct (FS.lookup fs p) as [[]|]; try discriminate. now injection Hl as ->. }
  eapply runs_bind; [apply runs_query_ok; exact Hread|].
  destruct progress.
  - eapply runs_bind; [apply runs_lift_ok, (bz2_round_trip HR)|].
    eapply runs_bind; [apply runs_emit|].
    eapply runs_bind; [apply runs_emit|]. apply runs_ret.
  - apply runs_lift_ok, (bz2_round_trip HR).
Qed.

(** ** The archive side *)

Lemma look_is_file (fs : node) (p : path) (d : bytes) :
  look fs p = IsFile d <-> FS.lookup fs p = Some (File d).
Proof.
  unfold look. destruct (FS.lookup fs p) as [[d'|es]|]; simpl; split;
    try discriminate; now intros [= ->].
Qed.


Lemma runs_archive_report (src dst : path) (benchmark : bool) (fs : node)
      (payload : bytes) :
  look fs dst = IsFile payload ->
  exists r, runs (archive_report src dst benchmark) fs fs (Ok r).
Proof.
  intro Hl. apply look_is_file in Hl. unfold archive_report.
  assert (Hex : FS.exists_ fs dst = true) by (unfold FS.exists_; now rewrite Hl).
  assert (Hsz : FS.size fs dst = Ok (List.length payload))
    by (unfold FS.size; now rewrite Hl).
  destruct benchmark.
  - exists ElapsedSeconds.
    eapply runs_bind; [apply runs_get|]. rewrite Hex.
    eapply runs_bind; [apply runs_query_ok, Hsz|].
    destruct (FS.is_file fs src) eqn:Ef.
    + unfold FS.is_file in Ef.
      destruct (FS.lookup fs src) as [[d|]|] eqn:El; try discriminate.
      eapply runs_bind;
        [apply runs_query_ok; unfold FS.size; rewrite El; reflexivity|].
      eapply runs_bind; [apply runs_emit|apply runs_ret].
    + eapply runs_bind; [apply runs_ret|].
      eapply runs_bind; [apply runs_emit|apply runs_ret].
  - exists NoResult.
    eapply runs_bind; [apply runs_get|]. rewrite Hex.
    eapply runs_bind; [apply runs_query_ok, Hsz|].
    eapply runs_bind; [apply runs_emit|apply runs_ret].
Qed.



(** Lines 145-152: the members are built alike with and without progress. *)
Lemma runs_build_members (src : path) (pr : bool) (fs : node) :
  runs (if pr then
          total_files <- query (fun fs => Ok (count_files fs src)) ;;
          print_out (FileCount total_files) ;;;
          members <- query (fun fs => Ok (create_tar_archive fs src)) ;;
          emit (print_progress (Z.of_nat total_files) (Z.of_nat total_files)
                               lbl_archive) ;;;
          print_newline ;;;
          ret members
        else
          query (fun fs => Ok (create_tar_archive fs src)))
       fs fs (Ok (create_tar_archive fs src)).
Proof. destruct pr; reflexivity. Qed.



(** ** The extract side *)

Lemma mkdir_parents_inv (p : path) :
  forall (fs fs' : node),
    FS.mkdir_parents fs p = Ok fs' ->
    forall q d, is_prefix q p = true -> look fs q <> IsFile d.
Proof.
  induction p as [|k p IH]; intros fs fs' H q d Hq.
  - destruct fs as [d0|es]; [discriminate|]. destruct q; [|discriminate].
    discriminate.
  - destruct fs as [d0|es]; [discriminate|]. destruct q as [|k2 q]; [discriminate|].
    simpl in Hq. apply andb_true_iff in Hq. destruct Hq as [E Hq].
    apply String.eqb_eq in E. subst k2. simpl in H. rewrite look_cons.
    destruct (FS.assoc k es) as [c|]; [|discriminate].
    destruct (FS.mkdir_parents c p) as [c'|] eqn:Em; [|discriminate].
    exact (IH c c' Em q d Hq).
Qed.

Lemma is_prefix_app_nil (a q : path) : is_prefix (a ++ q) a = true -> q = [].
Proof.
  intro H. rewrite <- (app_nil_r a) in H at 2. rewrite is_prefix_app_same in H.
  destruct q; [reflexivity|discriminate].
Qed.

(** Nothing lies below a path that shows nothing. *)
Lemma look_below_absent (fs : node) (a q : path) :
  look fs a = Absent -> look fs (a ++ q) = Absent.
Proof.
  intro H. destruct q as [|k q]; [now rewrite app_nil_r|].
  destruct (look fs (a ++ k :: q)) eqn:E; [reflexivity| |];
    rewrite (look_above fs a (k :: q)) in H; try discriminate;
    rewrite E; discriminate.
Qed.

(** A destination directory that was just created holds an empty part of
    any directory tree. *)
Lemma fresh_dest_partial_copy (tv fs fs' : node) (dest : path) :
  look tv [] = IsDir ->
  look fs dest = Absent ->
  FS.mkdir_parents fs dest = Ok fs' ->
  partial_copy tv dest fs'.
Proof.
  intros Htv Hf Hm. pose proof (mkdir_parents_look _ _ _ Hm) as Hv. split.
  - now rewrite Hv, is_prefix_refl.
  - intro q. rewrite Hv. destruct (is_prefix (dest ++ q) dest) eqn:E.
    + apply is_prefix_app_nil in E. subst q. now right.
    + left. now apply look_below_absent.
Qed.

Lemma runs_extract_report (dest : path) (bm : bool) (fs : node) :
  exists r, runs (extract_report dest bm) fs fs (Ok r).
Proof. destruct bm; eexists; reflexivity. Qed.

Lemma runs_of_run {A} (m : M A) (fs fs' : node) (out : list event) (r : res A) :
  m fs = (fs', out, r) -> runs m fs fs' r.
Proof. unfold runs, effect. now intros ->. Qed.

Lemma read_bytes_look (fs : node) (p : path) (d : bytes) :
  look fs p = IsFile d -> FS.read_bytes fs p = Ok d.
Proof. intro H. apply look_is_file in H. unfold FS.read_bytes. now rewrite H. Qed.



(** ** Round trip *)

Lemma wf_lookup (p : path) :
  forall fs t, FS.wf fs = true -> FS.lookup fs p = Some t -> FS.wf t = true.
Proof.
  induction p as [|k p IH]; intros fs t Hwf Hl.
  - now injection Hl as <-.
  - simpl in Hl. destruct fs as [d|es]; [discriminate|].
    destruct (FS.assoc k es) as [c|] eqn:Ea; [|discriminate].
    apply assoc_in in Ea. destruct (wf_dir es k c Hwf Ea) as [_ Hc]. eauto.
Qed.

Lemma format_of_nonempty (p : path) (f : format) : format_of p = Some f -> p <> [].
Proof. intros H ->. discriminate. Qed.

Lemma parent_neq (p : path) : p <> [] -> parent p <> p.
Proof.
  intros Hp E. apply (f_equal (@List.length _)) in E.
  unfold parent in E. rewrite (app_removelast_last "" Hp) in E at 2.
  rewrite length_app in E. simpl in E. lia.
Qed.

Lemma dest_still_fresh (fs fs1 : node) (dst dest : path) (payload : bytes) :
  (forall x, look fs1 x = if path_eq_dec x dst then IsFile payload else look fs x) ->
  look fs dest = Absent -> creatable fs dest = true -> is_prefix dst dest = false ->
  look fs1 dst = IsFile payload /\ look fs1 dest = Absent /\
  exists fs1', FS.mkdir_parents fs1 dest = Ok fs1'.
Proof.
  intros Hv Hfresh Hc Hapart. split; [|split].
  - rewrite Hv. now destruct (path_eq_dec dst dst).
  - rewrite Hv. destruct (path_eq_dec dest dst) as [->|]; [|exact Hfresh].
    now rewrite is_prefix_refl in Hapart.
  - unfold creatable in Hc.
    destruct (FS.mkdir_parents fs dest) as [fs'|] eqn:Em; [|discriminate].
    apply mkdir_parents_ok. intros q d Hq. rewrite Hv.
    destruct (path_eq_dec q dst) as [->|]; [congruence|].
    exact (mkdir_parents_inv dest fs fs' Em q d Hq).
Qed.

Lemma same_files_refl (t : node) : same_files t t.
Proof. intros p d. reflexivity. Qed.


(** ** The concrete libraries meet the laws *)

Lemma toy_dec_nat (n : nat) (r : bytes) :
  Toy.dec_nat (Toy.enc_nat n ++ r) = Some (n, r).
Proof. induction n as [|n IH]; simpl; [reflexivity|now rewrite IH]. Qed.

Lemma toy_dec_bytes (d r : bytes) :
  Toy.dec_bytes (Toy.enc_bytes d ++ r) = Some (d, r).
Proof.
  unfold Toy.dec_bytes, Toy.enc_bytes. rewrite <- app_assoc, toy_dec_nat.
  rewrite length_app.
  replace (List.length d <=? List.length d + List.length r)%nat with true
    by (symmetry; apply Nat.leb_le; lia).
  rewrite firstn_app, Nat.sub_diag, firstn_all, skipn_app, Nat.sub_diag, skipn_all.
  simpl. now rewrite app_nil_r.
Qed.

Lemma toy_dec_string (s : string) (r : bytes) :
  Toy.dec_string (Toy.enc_string s ++ r) = Some (s, r).
Proof.
  unfold Toy.dec_string, Toy.enc_string.
  now rewrite toy_dec_bytes, string_of_list_byte_of_string.
Qed.

Lemma toy_dec_list {A} (enc : A -> bytes) (dec : bytes -> option (A * bytes)) :
  (forall x r, dec (enc x ++ r) = Some (x, r)) ->
  forall l r, Toy.dec_list dec (Toy.enc_list enc l ++ r) = Some (l, r).
Proof.
  intros H l r. unfold Toy.dec_list, Toy.enc_list.
  rewrite <- app_assoc, toy_dec_nat.
  induction l as [|x l IH]; simpl; [reflexivity|].
  now rewrite <- app_assoc, H, IH.
Qed.

Lemma toy_dec_member (m : member) (r : bytes) :
  Toy.dec_member (Toy.enc_member m ++ r) = Some (m, r).
Proof.
  destruct m as [p d|p]; simpl.
  - unfold Toy.dec_path, Toy.enc_path.
    now rewrite <- app_assoc, (toy_dec_list _ _ toy_dec_string), toy_dec_bytes.
  - unfold Toy.dec_path, Toy.enc_path.
    now rewrite (toy_dec_list _ _ toy_dec_string).
Qed.

Lemma toy_tar_round_trip (ms : list member) : Toy.tar_read (Toy.tar_write ms) = Ok ms.
Proof.
  unfold Toy.tar_read, Toy.tar_write.
  rewrite <- (app_nil_r (Toy.enc_list Toy.enc_member ms)).
  now rewrite (toy_dec_list _ _ toy_dec_member).
Qed.

Lemma toy_zstd_frame (d : bytes) : zstd_frame Toy.libs d = Toy.zstd_magic :: d.
Proof.
  unfold zstd_frame. cbn. destruct d; cbn; [reflexivity|now rewrite app_nil_r].
Qed.

Lemma toy_zd_feed_started (chunks : list bytes) :
  zd_feed Toy.libs true chunks = Ok (List.concat chunks).
Proof.
  induction chunks as [|c cs IH]; [reflexivity|].
  cbn in *. now rewrite IH.
Qed.

Lemma toy_round_trips : RoundTrips Toy.libs.
Proof.
  split.
  - intro d. reflexivity.
  - intro d. rewrite toy_zstd_frame. exists true. reflexivity.
  - intros d chunks Hc Hne. rewrite toy_zstd_frame in Hc.
    destruct chunks as [|c cs]; [discriminate|].
    apply Forall_inv in Hne. destruct c as [|b c]; [contradiction|].
    simpl in Hc. injection Hc as -> <-.
    cbn. fold (zd_feed Toy.libs). now rewrite toy_zd_feed_started.
  - exact toy_tar_round_trip.
  - intro ms. cbn. unfold Toy.tar_bz2_read, Toy.tar_bz2_write. cbn.
    apply toy_tar_round_trip.
Qed.


(** ** Where the round trip moves files, and the tar.bz2 stream *)


(** C4 (evaluation).  Archiving the directory [d] to .tar.bz2: the stream
    written to the destination holds the directory itself and every entry
    below it, each named from the root's own name on, whereas the members
    [create_tar_archive] builds for the same source (used for .tar.zst, and
    built but not written here) are the files only, named relative to the
    root. *)
Theorem tar_bz2_members_carry_root_name :
  forall (L : Libs) (progress benchmark : bool),
    look (fst (fst (archive L ["d"] ["out"; "d.tar.bz2"] progress benchmark fs_sample)))
         ["out"; "d.tar.bz2"]
    = IsFile (tar_bz2_write L
                [MDir ["d"]; MDir ["d"; "a"];
                 MFile ["d"; "a"; "b.txt"] [x68; x69];
                 MDir ["d"; "a"; "c"];
                 MFile ["d"; "a"; "c"; "d.txt"] [x21]]) /\
    create_tar_archive fs_sample ["d"]
    = [MFile ["a"; "b.txt"] [x68; x69]; MFile ["a"; "c"; "d.txt"] [x21]].
Proof. intros L pr bm. destruct pr, bm; split; reflexivity. Qed.

(** The names [create_tar_archive] gives: the base name for a regular file;
    for a well-formed directory exactly its regular files, each under its
    path relative to the root. *)
Lemma create_tar_archive_names (fs : node) (src : path) (t : node) :
  FS.wf fs = true ->
  FS.lookup fs src = Some t ->
  match t with
  | File d => create_tar_archive fs src = [MFile [name src] d]
  | Dir _ =>
      forall m, In m (create_tar_archive fs src) <->
                exists p d, m = MFile p d /\ p <> [] /\ look t p = IsFile d
  end.
Proof.
  intros Hwf Hs. pose proof (wf_lookup src fs t Hwf Hs) as Hwft.
  unfold create_tar_archive, FS.is_file, walk_at. rewrite Hs.
  destruct t as [d|es]; [reflexivity|].
  intro m. split.
  - intro Hm. destruct (member_is_file (Dir es) [] m Hwft Hm) as (q & d & -> & Hq & Hl).
    eauto.
  - intros (p & d & -> & Hp & Hl). exact (file_is_member (Dir es) [] p d Hp Hl).
Qed.

Lemma in_insert_by_name {A} (x y : string * A) (l : list (string * A)) :
  In x (insert_by_name y l) <-> x = y \/ In x l.
Proof.
  induction l as [|z l IH]; simpl; [intuition congruence|].
  destruct (String.leb (fst y) (fst z)); simpl; [intuition congruence|].
  rewrite IH. intuition congruence.
Qed.

Lemma in_sort_by_name {A} (x : string * A) (l : list (string * A)) :
  In x (sort_by_name l) <-> In x l.
Proof.
  induction l as [|y l IH]; simpl; [tauto|].
  rewrite in_insert_by_name, IH. intuition congruence.
Qed.

(** Every entry [TarFile.add] makes is named from [arcname] on: with
    [arcname = src.name] the root's own name is part of every entry's path. *)
Lemma tar_add_under_arcname (n : node) :
  forall (arcname : path) (m : member),
    In m (tar_add n arcname) -> is_prefix arcname (arcname_of m) = true.
Proof.
  induction n as [d|es IH] using node_induction; intros arcname m Hm.
  - simpl in Hm. destruct Hm as [<-|[]]. apply is_prefix_refl.
  - simpl in Hm. destruct Hm as [<-|Hm]; [apply is_prefix_refl|].
    apply in_concat in Hm. destruct Hm as (ms & Hms & Hin).
    apply in_map_iff in Hms. destruct Hms as ([k ms'] & <- & Hk).
    apply (proj1 (in_sort_by_name _ _)) in Hk. simpl in Hin.
    assert (Hsub : exists c, In (k, c) es /\ ms' = tar_add c (arcname ++ [k])).
    { clear - Hk. induction es as [|[k0 c0] es IHes]; [contradiction|].
      simpl in Hk. destruct Hk as [[= <- <-]|Hk].
      - exists c0. split; [now left|reflexivity].
      - destruct (IHes Hk) as (c & Hc & E). exists c. split; [now right|exact E]. }
    destruct Hsub as (c & Hc & ->).
    rewrite Forall_forall in IH. specialize (IH (k, c) Hc (arcname ++ [k]) m Hin).
    apply is_prefix_spec in IH. destruct IH as (r & Hr).
    apply is_prefix_spec. exists (k :: r). now rewrite Hr, <- app_assoc.
Qed.

(** ** Progress reports *)








































(** * Further properties of the code *)

(** ** What every run keeps

    [always I m]: in every run of [m], from the file system [fs] to [fs']
    with output [out], [I fs fs' out] holds, whether the run returns or
    raises.  [I] holds of a run that does nothing and of two runs in
    sequence. *)

Section Always.

Variable I : node -> node -> list event -> Prop.
Hypothesis I_unit : forall fs, I fs fs [].
Hypothesis I_seq :
  forall fs fs1 fs2 out1 out2,
    I fs fs1 out1 -> I fs1 fs2 out2 -> I fs fs2 (out1 ++ out2).

Lemma always_ret {A} (a : A) : always I (ret a).
Proof. intro fs. apply I_unit. Qed.

Lemma always_get : always I get_fs.
Proof. intro fs. apply I_unit. Qed.

Lemma always_query {A} (f : node -> res A) : always I (query f).
Proof. intro fs. apply I_unit. Qed.

Lemma always_lift {A} (r : res A) : always I (lift r).
Proof. intro fs. apply I_unit. Qed.

Lemma always_emit (out : list event) :
  (forall fs, I fs fs out) -> always I (emit out).
Proof. intros H fs. apply H. Qed.

Lemma always_update (f : node -> res node) :
  (forall fs fs', f fs = Ok fs' -> I fs fs' []) -> always I (update f).
Proof.
  intros H fs. unfold update. destruct (f fs) as [fs'|e] eqn:E; simpl.
  - now apply H.
  - apply I_unit.
Qed.

Lemma always_bind {A B} (m : M A) (f : A -> M B) :
  always I m -> (forall a, always I (f a)) -> always I (bind m f).
Proof.
  intros Hm Hf fs. specialize (Hm fs). unfold bind.
  destruct (m fs) as [[fs1 out1] [a|e]]; simpl in *; [|exact Hm].
  specialize (Hf a fs1). destruct (f a fs1) as [[fs2 out2] r]; simpl in *.
  eapply I_seq; eassumption.
Qed.

Lemma always_try {A} (body : M A) (handler : exn -> M A) :
  always I body -> (forall e, always I (handler e)) -> always I (try_except body handler).
Proof.
  intros Hb Hh fs. specialize (Hb fs). unfold try_except.
  destruct (body fs) as [[fs1 out1] [a|e]]; simpl in *; [exact Hb|].
  specialize (Hh e fs1). destruct (handler e fs1) as [[fs2 out2] r]; simpl in *.
  eapply I_seq; eassumption.
Qed.

Lemma always_for_each {A St} (body : A -> St -> M St) (xs : list A) :
  (forall x acc, always I (body x acc)) ->
  forall acc, always I (for_each xs acc body).
Proof.
  intro Hb. induction xs as [|x xs IH]; intro acc; simpl.
  - apply always_ret.
  - apply always_bind; [apply Hb|exact IH].
Qed.

End Always.

(** Steps through an action, leaving the conditions on what it prints and
    on its file-system updates. *)
Ltac always_step Hu Hs :=
  cbv beta;
  lazymatch goal with
  | |- always _ (bind _ _) => apply (always_bind _ Hs); [|intro]
  | |- always _ (ret _) => apply (always_ret _ Hu)
  | |- always _ get_fs => apply (always_get _ Hu)
  | |- always _ (query _) => apply (always_query _ Hu)
  | |- always _ (lift _) => apply (always_lift _ Hu)
  | |- always _ (for_each _ _ _) => apply (always_for_each _ Hu Hs); intros ? ?
  | |- always _ (try_except _ _) => apply (always_try _ Hs); [|intro]
  | |- always _ (emit _) => apply always_emit; intro
  | |- always _ print_newline => apply always_emit; intro
  | |- always _ (print_out _) => apply always_emit; intro
  | |- always _ (print_err _) => apply always_emit; intro
  | |- always _ (update _) => apply (always_update _ Hu); intros ? ? ?
  | |- always _ (if ?b then _ else _) => destruct b
  | |- always _ (match ?x with Single => _ | Tar => _ end) => destruct x
  | |- always _ (match ?x with Zst => _ | Bz2 => _ end) => destruct x
  | |- always _ (match ?x with MFile _ _ => _ | MDir _ => _ end) => destruct x
  | |- always _ (match ?x with Some _ => _ | None => _ end) => destruct x
  | |- always _ (let '(_, _) := ?x in _) => destruct x
  end.

Ltac always_run Hu Hs := repeat always_step Hu Hs.

(** All the actions of the program, opened up. *)
Ltac open_program :=
  unfold archive, archive_body, archive_report, tar_bz2_add, extract, extract_body,
    extract_report, extract_members_progress, tar_extractall, tar_extract,
    compress_with_zstd, compress_with_bz2, decompress_zstd, decompress_bz2.

Lemma only_at_unit (dst : path) (fs : node) : only_at dst fs fs [].
Proof. split; auto. Qed.

Lemma only_at_seq (dst : path) (fs fs1 fs2 : node) (out1 out2 : list event) :
  only_at dst fs fs1 out1 -> only_at dst fs1 fs2 out2 ->
  only_at dst fs fs2 (out1 ++ out2).
Proof.
  intros [H1 K1] [H2 K2]. split.
  - intros q Hq. now rewrite H2, H1.
  - destruct K2 as [E|K2]; [rewrite E; exact K1|now right].
Qed.

Lemma only_at_write (dst : path) (d : bytes) (fs fs' : node) (out : list event) :
  FS.write_bytes fs dst d = Ok fs' -> only_at dst fs fs' out.
Proof.
  intro H. pose proof (write_bytes_look _ _ _ _ H) as Hv. split.
  - intros q Hq. rewrite Hv. now destruct (path_eq_dec q dst).
  - right. exists d. rewrite Hv. now destruct (path_eq_dec dst dst).
Qed.

Lemma archive_only_at (L : Libs) (src dst : path) (pr bm : bool) :
  always (only_at dst) (archive L src dst pr bm).
Proof.
  open_program.
  always_run (only_at_unit dst) (only_at_seq dst);
    try apply only_at_unit; try (eapply only_at_write; eassumption).
Qed.

(** X1.  [archive] changes nothing but its destination: in every run, with
    or without an error, every other path shows what it showed before, and
    the destination is as before or holds a regular file. *)
Theorem archive_writes_only_destination :
  forall (L : Libs) (src dst : path) (progress benchmark : bool) (fs : node),
    let fs' := fst (fst (archive L src dst progress benchmark fs)) in
    (forall q, q <> dst -> look fs' q = look fs q) /\
    (look fs' dst = look fs dst \/ exists d, look fs' dst = IsFile d).
Proof. intros L src dst pr bm fs. apply (archive_only_at L src dst pr bm fs). Qed.

(** ** Nothing is deleted, nothing changes its kind *)

Lemma keeps_kinds_unit (fs : node) : keeps_kinds fs fs [].
Proof. intro q. destruct (look fs q); eauto. Qed.

Lemma keeps_kinds_seq (fs fs1 fs2 : node) (out1 out2 : list event) :
  keeps_kinds fs fs1 out1 -> keeps_kinds fs1 fs2 out2 ->
  keeps_kinds fs fs2 (out1 ++ out2).
Proof.
  intros H1 H2 q. specialize (H1 q). specialize (H2 q).
  destruct (look fs q); [exact I| |].
  - now rewrite H1 in H2.
  - destruct H1 as (d & H1). now rewrite H1 in H2.
Qed.

(** [write_bytes] refuses a directory. *)
Lemma write_bytes_not_dir (p : path) :
  forall (fs fs' : node) (d : bytes),
    FS.write_bytes fs p d = Ok fs' -> look fs p <> IsDir.
Proof.
  induction p as [|k p IH]; intros fs fs' d H.
  - destruct fs; [discriminate|discriminate H].
  - destruct fs as [d0|es]; [discriminate|]. simpl in H. rewrite look_cons.
    destruct (FS.assoc k es) as [c|]; [|discriminate].
    destruct (FS.write_bytes c p d) as [c'|] eqn:Ew; [|discriminate].
    exact (IH c c' d Ew).
Qed.

Lemma keeps_kinds_write (p : path) (d : bytes) (fs fs' : node) (out : list event) :
  FS.write_bytes fs p d = Ok fs' -> keeps_kinds fs fs' out.
Proof.
  intros H q. rewrite (write_bytes_look p fs fs' d H q).
  destruct (path_eq_dec q p) as [->|].
  - pose proof (write_bytes_not_dir p fs fs' d H) as Hd.
    destruct (look fs p); [exact I|now destruct Hd|eauto].
  - destruct (look fs q); eauto.
Qed.

Lemma keeps_kinds_mkdir (p : path) (fs fs' : node) (out : list event) :
  FS.mkdir_parents fs p = Ok fs' -> keeps_kinds fs fs' out.
Proof.
  intros H q. rewrite (mkdir_parents_look p fs fs' H q).
  destruct (is_prefix q p) eqn:E.
  - pose proof (fun d => mkdir_parents_inv p fs fs' H q d E) as Hf.
    destruct (look fs q) as [| |d]; [exact I|reflexivity|now destruct (Hf d)].
  - destruct (look fs q); eauto.
Qed.

Ltac keeps_kinds_run :=
  open_program;
  always_run keeps_kinds_unit keeps_kinds_seq;
  try apply keeps_kinds_unit;
  try (eapply keeps_kinds_write; eassumption);
  try (eapply keeps_kinds_mkdir; eassumption).



Lemma extract_body_keeps_kinds (L : Libs) (p dest : path) (t : container)
      (c : codec) (pr bm : bool) :
  always keeps_kinds
    (try_except (extract_body L p dest t c pr bm)
                (fun e => print_err (ExtractFailed e) ;;; ret NoResult)).
Proof. keeps_kinds_run. Qed.

(** Past validation [extract] is the [try] block run in the file system
    that [mkdir] left. *)
Lemma extract_past_validation (L : Libs) (p dest : path) (t : container) (c : codec)
      (pr bm : bool) (fs fs1 : node) :
  FS.exists_ fs p = true ->
  format_of p = Some (t, c) ->
  FS.mkdir_parents fs dest = Ok fs1 ->
  extract L p dest pr bm fs
  = try_except (extract_body L p dest t c pr bm)
               (fun e => print_err (ExtractFailed e) ;;; ret NoResult) fs1.
Proof.
  intros He Hf Hm. unfold extract. unfold bind at 1. unfold get_fs at 1.
  rewrite He, Hf. cbn [negb]. unfold bind at 1. unfold update at 1.
  rewrite Hm.
  destruct (try_except _ _ fs1) as [[fs2 out] r]. reflexivity.
Qed.


(** X3.  Once the archive exists, its suffix is supported and the
    destination directory can be created, [extract] leaves a directory at
    the destination whatever happens afterwards: also when the archive is
    corrupt and unpacking fails. *)
Theorem extract_leaves_destination_directory :
  forall (L : Libs) (p dest : path) (fmt : container * codec)
         (progress benchmark : bool) (fs : node),
    FS.exists_ fs p = true ->
    format_of p = Some fmt ->
    creatable fs dest = true ->
    look (fst (fst (extract L p dest progress benchmark fs))) dest = IsDir.
Proof.
  intros L p dest [t c] pr bm fs He Hf Hc. unfold creatable in Hc.
  destruct (FS.mkdir_parents fs dest) as [fs1|] eqn:Hm; [|discriminate].
  rewrite (extract_past_validation L p dest t c pr bm fs fs1 He Hf Hm).
  pose proof (extract_body_keeps_kinds L p dest t c pr bm fs1 dest) as Hk.
  rewrite (mkdir_parents_look dest fs fs1 Hm dest), is_prefix_refl in Hk.
  exact Hk.
Qed.

(** X3 at a concrete input: [f.txt] is no zstd frame, unpacking fails and the
    new directory [fresh] stays. *)
Lemma extract_leaves_destination_directory_witness :
  look (fst (fst (extract Toy.libs ["f.txt.zst"] ["fresh"] true false
                          (Dir [("f.txt.zst", File [x64; x61; x74; x61])]))))
       ["fresh"] = IsDir.
Proof.
  apply (extract_leaves_destination_directory Toy.libs ["f.txt.zst"] ["fresh"]
           (Single, Zst) true false);
    reflexivity.
Defined.

(** X4.  [archive] never raises: every run returns a result, whatever the
    file system, the arguments and the libraries do. *)
Theorem archive_always_returns :
  forall (L : Libs) (src dst : path) (progress benchmark : bool) (fs : node),
    exists fs' out r, archive L src dst progress benchmark fs = (fs', out, Ok r).
Proof. intros. apply archive_never_raises. Qed.

(** X5.  [extract] raises in exactly one situation: the archive exists, its
    suffix is supported and creating the destination directory fails.  The
    exception is the one of [mkdir]; nothing has been printed and the file
    system is as it was. *)
Theorem extract_raises_only_at_mkdir :
  forall (L : Libs) (p dest : path) (progress benchmark : bool) (fs : node) (e : exn),
    ((exists fs' out, extract L p dest progress benchmark fs = (fs', out, Raise e)) <->
     (FS.exists_ fs p = true /\ format_of p <> None /\
      FS.mkdir_parents fs dest = Raise e)) /\
    (forall fs' out,
        extract L p dest progress benchmark fs = (fs', out, Raise e) ->
        fs' = fs /\ out = []).
Proof.
  intros L p dest pr bm fs e. split; [apply extract_raises_iff|].
  intros fs' out H.
  assert (Hc : exists fs' out, extract L p dest pr bm fs = (fs', out, Raise e))
    by eauto.
  apply (proj1 (extract_raises_iff L p dest pr bm fs e)) in Hc.
  destruct Hc as (He & Hf & Hm).
  revert H. unfold extract. unfold bind at 1. unfold get_fs at 1.
  rewrite He. cbn [negb].
  destruct (format_of p) as [[t c]|]; [|now destruct Hf].
  unfold bind at 1. unfold update at 1. rewrite Hm.
  intro H. injection H as <- <-. split; reflexivity.
Qed.

(** ** The progress bar *)





(** ** The tar builder *)

Lemma count_walk (ts : list FS.triple) (a : nat) :
  fold_left (fun count (t : FS.triple) => (count + List.length (snd t))%nat) ts a
  = (a + List.length (members_of_walk ts))%nat.
Proof.
  revert a. induction ts as [|[[root dirs] files] ts IH]; intro a; simpl.
  - lia.
  - rewrite IH, length_app, length_map. lia.
Qed.

(** [count_files] counts what [create_tar_archive] adds. *)
Lemma count_files_members (fs : node) (src : path) :
  FS.exists_ fs src = true ->
  count_files fs src = List.length (create_tar_archive fs src).
Proof.
  unfold count_files, create_tar_archive, FS.is_file, FS.exists_, walk_at.
  destruct (FS.lookup fs src) as [[d|es]|]; [reflexivity| |discriminate].
  intros _. now rewrite count_walk.
Qed.

(** Every name of a directory's walk starts with one of its entries. *)
Lemma walk_names_start (t : node) :
  forall (root : path) (m : member),
    In m (members_of_walk (FS.walk root t)) ->
    match t with
    | File _ => False
    | Dir es => exists k c q, In (k, c) es /\ arcname_of m = root ++ k :: q
    end.
Proof.
  induction t as [d0|es IH] using node_induction; intros root m Hin.
  - contradiction.
  - rewrite walk_dir in Hin.
    change (members_of_walk (?a :: ?b)) with (members_of_walk ([a] ++ b)) in Hin.
    rewrite members_of_walk_app, in_app_iff in Hin. destruct Hin as [Hin|Hin].
    + simpl in Hin. rewrite app_nil_r in Hin. apply in_map_iff in Hin.
      destruct Hin as ([k d] & <- & Hin). apply in_files_of in Hin.
      exists k, (File d), []. split; [exact Hin|reflexivity].
    + apply in_members_of_flat_map in Hin. destruct Hin as (k & c & Hkc & Hin).
      rewrite Forall_forall in IH. specialize (IH (k, c) Hkc (root ++ [k]) m Hin).
      simpl in IH. destruct c as [d|es']; [contradiction|].
      destruct IH as (k' & c' & q & _ & ->).
      exists k, (Dir es'), (k' :: q). split; [exact Hkc|].
      now rewrite <- app_assoc.
Qed.

Lemma fresh_not_in (k : string) (c : node) (es : list (string * node)) :
  FS.fresh k es = true -> In (k, c) es -> False.
Proof.
  induction es as [|[k0 c0] es IH]; simpl; [auto|].
  intros H [[= -> ->]|Hin].
  - rewrite String.eqb_refl in H. discriminate.
  - apply andb_true_iff in H. destruct H as [_ H]. auto.
Qed.

Lemma wf_cons (k : string) (c : node) (es : list (string * node)) :
  FS.wf (Dir ((k, c) :: es)) = true ->
  FS.fresh k es = true /\ FS.wf c = true /\ FS.wf (Dir es) = true.
Proof.
  simpl. intro H. apply andb_true_iff in H. destruct H as [H H3].
  apply andb_true_iff in H. destruct H as [H1 H2]. auto.
Qed.

Lemma members_of_walk_dir (root : path) (es : list (string * node)) :
  members_of_walk (FS.walk root (Dir es))
  = map (fun f : string * bytes => MFile (root ++ [fst f]) (snd f)) (FS.files_of es)
    ++ members_of_walk (flat_map (fun kc => FS.walk (root ++ [fst kc]) (snd kc)) es).
Proof.
  rewrite walk_dir.
  change (members_of_walk (?a :: ?b)) with (members_of_walk ([a] ++ b)).
  rewrite members_of_walk_app. f_equal. simpl. apply app_nil_r.
Qed.

(** In a well-formed tree no two members of the walk share a name. *)
Lemma walk_names_distinct (t : node) :
  forall (root : path),
    FS.wf t = true ->
    NoDup (map arcname_of (members_of_walk (FS.walk root t))).
Proof.
  induction t as [d0|es IH] using node_induction; intros root Hwf.
  - constructor.
  - induction es as [|[k c] es IHes].
    + constructor.
    + destruct (wf_cons k c es Hwf) as (Hf & Hc & Hes).
      inversion IH as [|? ? IHc IHrest]; subst. simpl in IHc.
      specialize (IHes IHrest Hes).
      assert (Hfar : forall m, In m (members_of_walk (FS.walk root (Dir es))) ->
                       forall q, arcname_of m <> root ++ k :: q).
      { intros m Hm q Hq.
        destruct (walk_names_start (Dir es) root m Hm) as (k' & c' & q' & Hin & Hn).
        rewrite Hn in Hq. apply app_inv_head in Hq. injection Hq as -> _.
        exact (fresh_not_in k c' es Hf Hin). }
      rewrite members_of_walk_dir in IHes, Hfar |- *.
      cbn [flat_map fst snd]. rewrite members_of_walk_app.
      set (rest := members_of_walk
                     (flat_map (fun kc => FS.walk (root ++ [fst kc]) (snd kc)) es)) in *.
      destruct c as [d|es'].
      * cbn [FS.files_of FS.walk members_of_walk flat_map map fst snd app].
        constructor; [|exact IHes].
        intro Hin. apply in_map_iff in Hin. destruct Hin as (m & Hn & Hm).
        exact (Hfar m Hm [] Hn).
      * cbn [FS.files_of].
        set (here := map (fun f : string * bytes => MFile (root ++ [fst f]) (snd f))
                         (FS.files_of es)) in *.
        set (below := members_of_walk (FS.walk (root ++ [k]) (Dir es'))) in *.
        apply (Permutation_NoDup
                 (l := map arcname_of (below ++ here ++ rest))).
        { apply Permutation_map.
          rewrite !app_assoc. apply Permutation_app_tail.
          apply Permutation_app_comm. }
        rewrite map_app. apply NoDup_app; [exact (IHc (root ++ [k]) Hc)|exact IHes|].
        intros n Hb Hr. apply in_map_iff in Hb. destruct Hb as (m & Hn & Hm).
        apply in_map_iff in Hr. destruct Hr as (m' & Hn' & Hm').
        destruct (walk_names_start (Dir es') (root ++ [k]) m Hm)
          as (k' & c' & q & _ & Hq).
        rewrite <- app_assoc in Hq. simpl in Hq.
        apply (Hfar m' Hm' (k' :: q)). congruence.
Qed.

(** X7.  For a directory of a well-formed file system, [create_tar_archive]
    adds exactly the regular files below it, each named by its path relative
    to the directory and no name twice; directories are not added, so empty
    ones are left out.  [count_files] gives the number of members added. *)
Theorem create_tar_archive_lists_each_file_once :
  forall (fs : node) (src : path) (es : list (string * node)),
    FS.wf fs = true ->
    FS.lookup fs src = Some (Dir es) ->
    let members := create_tar_archive fs src in
    (forall m, In m members <->
               exists p d, m = MFile p d /\ p <> [] /\ look fs (src ++ p) = IsFile d) /\
    NoDup (map arcname_of members) /\
    count_files fs src = List.length members.
Proof.
  intros fs src es Hwf Hs. cbv zeta. split; [|split].
  - intro m. rewrite (create_tar_archive_names fs src (Dir es) Hwf Hs m).
    split; intros (p & d & -> & Hp & Hl); exists p, d;
      (split; [reflexivity|split; [exact Hp|]]).
    + now rewrite (look_below fs (Dir es) src p Hs).
    + now rewrite <- (look_below fs (Dir es) src p Hs).
  - unfold create_tar_archive, FS.is_file, walk_at. rewrite Hs.
    apply walk_names_distinct. exact (wf_lookup src fs (Dir es) Hwf Hs).
  - apply count_files_members. unfold FS.exists_. now rewrite Hs.
Qed.

(** X7 at a concrete input: the directory [d] of the sample tree. *)
Lemma create_tar_archive_lists_each_file_once_witness :
  let members := create_tar_archive fs_sample ["d"] in
  (forall m, In m members <->
             exists p d, m = MFile p d /\ p <> [] /\
                         look fs_sample (["d"] ++ p) = IsFile d) /\
  NoDup (map arcname_of members) /\
  count_files fs_sample ["d"] = List.length members.
Proof.
  apply (create_tar_archive_lists_each_file_once fs_sample ["d"]
           [("a", Dir [("b.txt", File [x68; x69]);
                       ("c", Dir [("d.txt", File [x21])])])]);
    reflexivity.
Defined.

(** ** What the result tells *)

Lemma succeeded_app (a b : list event) :
  succeeded (a ++ b) = succeeded a && succeeded b.
Proof. unfold succeeded. rewrite existsb_app. apply negb_orb. Qed.

Lemma quiet_unit (fs : node) : quiet fs fs [].
Proof. reflexivity. Qed.

Lemma quiet_seq (fs fs1 fs2 : node) (out1 out2 : list event) :
  quiet fs fs1 out1 -> quiet fs1 fs2 out2 -> quiet fs fs2 (out1 ++ out2).
Proof. unfold quiet. intros H1 H2. now rewrite succeeded_app, H1, H2. Qed.

Lemma print_progress_quiet (cur total : Z) (prefix : string) :
  succeeded (print_progress cur total prefix) = true.
Proof.
  unfold print_progress, print_progress_width.
  destruct (total <=? 0)%Z; reflexivity.
Qed.

Ltac quiet_run :=
  always_run quiet_unit quiet_seq;
  unfold quiet; try apply print_progress_quiet; reflexivity.

Lemma same_fs_unit (fs : node) : same_fs fs fs [].
Proof. reflexivity. Qed.

Lemma same_fs_seq (fs fs1 fs2 : node) (out1 out2 : list event) :
  same_fs fs fs1 out1 -> same_fs fs1 fs2 out2 -> same_fs fs fs2 (out1 ++ out2).
Proof. unfold same_fs. congruence. Qed.

Ltac same_fs_run :=
  always_run same_fs_unit same_fs_seq; reflexivity.

Lemma bind_returns {A B} (m : M A) (f : A -> M B) (fs fs' : node)
      (out : list event) (b : B) :
  bind m f fs = (fs', out, Ok b) ->
  exists fs1 out1 a out2,
    m fs = (fs1, out1, Ok a) /\ f a fs1 = (fs', out2, Ok b) /\ out = out1 ++ out2.
Proof.
  unfold bind. destruct (m fs) as [[fs1 out1] [a|e]]; [|discriminate].
  destruct (f a fs1) as [[fs2 out2] r] eqn:E. intros [= -> <- ->].
  exists fs1, out1, a, out2. auto.
Qed.

Lemma on_return_last {A B} (Q : node -> Prop) (m : M A) (f : A -> M B) :
  (forall a, on_return Q (f a)) -> on_return Q (bind m f).
Proof.
  intros H fs. unfold bind. destruct (m fs) as [[fs1 out1] [a|e]]; [|exact I].
  specialize (H a fs1). destruct (f a fs1) as [[fs2 out2] r]. exact H.
Qed.

Lemma on_return_first {A B} (Q : node -> Prop) (m : M A) (f : A -> M B) :
  on_return Q m -> (forall a, always same_fs (f a)) -> on_return Q (bind m f).
Proof.
  intros Hm Hf fs. unfold bind. specialize (Hm fs).
  destruct (m fs) as [[fs1 out1] [a|e]]; [|exact I].
  specialize (Hf a fs1). unfold same_fs in Hf.
  destruct (f a fs1) as [[fs2 out2] [b|e]]; [|exact I].
  simpl in Hf. now subst fs2.
Qed.

Lemma on_return_update (Q : node -> Prop) (f : node -> res node) :
  (forall fs fs', f fs = Ok fs' -> Q fs') -> on_return Q (update f).
Proof.
  intros H fs. unfold update. specialize (H fs).
  destruct (f fs) as [fs'|e]; [now apply H|exact I].
Qed.

Lemma write_bytes_leaves_file (p : path) (d : bytes) (fs fs' : node) :
  FS.write_bytes fs p d = Ok fs' -> exists d', look fs' p = IsFile d'.
Proof.
  intro H. exists d. rewrite (write_bytes_look p fs fs' d H p).
  now destruct (path_eq_dec p p).
Qed.

Ltac on_return_step :=
  cbv beta zeta;
  lazymatch goal with
  | |- on_return _ (bind (tar_bz2_add _ _ _) _) =>
      apply on_return_first; [|intro; same_fs_run]
  | |- on_return _ (bind _ _) => apply on_return_last; intro
  | |- on_return _ (update _) =>
      apply on_return_update; intros ? ? ?; eapply write_bytes_leaves_file; eassumption
  | |- on_return _ (tar_bz2_add _ _ _) => unfold tar_bz2_add
  | |- on_return _ (compress_with_zstd _ _ _ _) => unfold compress_with_zstd
  | |- on_return _ (compress_with_bz2 _ _ _ _) => unfold compress_with_bz2
  | |- on_return _ (if ?b then _ else _) => destruct b
  | |- on_return _ (match ?x with Single => _ | Tar => _ end) => destruct x
  | |- on_return _ (match ?x with Zst => _ | Bz2 => _ end) => destruct x
  | |- on_return _ (let '(_, _) := ?x in _) => destruct x
  end.

(** The report of [archive] when the archive is there. *)
Lemma archive_report_run (src dst : path) (bm : bool) (fs : node) (d : bytes) :
  look fs dst = IsFile d ->
  exists s,
    archive_report src dst bm fs
    = (fs,
       [Stdout (if bm then ArchiveBenchmark s (List.length d)
                else ArchiveCreated dst (List.length d))],
       Ok (if bm then ElapsedSeconds else NoResult)).
Proof.
  intro H. apply look_is_file in H.
  unfold archive_report, FS.exists_, FS.size, FS.is_file. run.
  repeat (rewrite H; cbn).
  destruct bm; [|exists 0%nat; reflexivity].
  destruct (FS.lookup fs src) as [[ds|es]|] eqn:Hs; cbn; rewrite ?Hs, ?H; cbn;
    eexists; reflexivity.
Qed.

Lemma try_except_cases {A} (body : M A) (handler : exn -> M A) (fs fs' : node)
      (out : list event) (r : res A) :
  try_except body handler fs = (fs', out, r) ->
  (exists a, body fs = (fs', out, Ok a) /\ r = Ok a) \/
  (exists fs1 out1 e out2,
      body fs = (fs1, out1, Raise e) /\ handler e fs1 = (fs', out2, r) /\
      out = out1 ++ out2).
Proof.
  unfold try_except. destruct (body fs) as [[fs1 out1] [a|e]].
  - intros [= <- <- <-]. left. eauto.
  - destruct (handler e fs1) as [[fs2 out2] r2] eqn:E. intros [= <- <- <-].
    right. exists fs1, out1, e, out2. auto.
Qed.

(** When the body of [archive] returns, the archive is a regular file, the
    last line printed is the report of its size and the result is the
    elapsed time exactly in a benchmark run. *)
Lemma archive_body_returns (L : Libs) (src dst : path) (t : container) (c : codec)
      (pr bm : bool) (fs fs' : node) (out : list event) (r : returned) :
  archive_body L src dst t c pr bm fs = (fs', out, Ok r) ->
  exists d s out0,
    look fs' dst = IsFile d /\
    out = out0 ++ [Stdout (if bm then ArchiveBenchmark s (List.length d)
                           else ArchiveCreated dst (List.length d))] /\
    r = (if bm then ElapsedSeconds else NoResult).
Proof.
  unfold archive_body. intro H. apply bind_returns in H.
  destruct H as (fs1 & out1 & a & out2 & H1 & H2 & ->).
  assert (Hd : exists d, look fs1 dst = IsFile d).
  { match type of H1 with
    | ?P fs = _ =>
        assert (HP : on_return (fun fs' => exists d, look fs' dst = IsFile d) P)
          by repeat on_return_step;
        specialize (HP fs); rewrite H1 in HP; exact HP
    end. }
  destruct Hd as (d & Hd).
  destruct (archive_report_run src dst bm fs1 d Hd) as (s & E).
  rewrite E in H2. injection H2 as <- <- <-.
  exists d, s, out1. auto.
Qed.

Lemma archive_body_quiet (L : Libs) (src dst : path) (t : container) (c : codec)
      (pr bm : bool) :
  always quiet (archive_body L src dst t c pr bm).
Proof. open_program. quiet_run. Qed.

Lemma extract_body_quiet (L : Libs) (p dest : path) (t : container) (c : codec)
      (pr bm : bool) :
  always quiet (extract_body L p dest t c pr bm).
Proof. open_program. quiet_run. Qed.

Lemma extract_body_returns (L : Libs) (p dest : path) (t : container) (c : codec)
      (pr bm : bool) (fs fs' : node) (out : list event) (r : returned) :
  extract_body L p dest t c pr bm fs = (fs', out, Ok r) ->
  exists out0,
    out = out0 ++ [Stdout (if bm then ExtractBenchmark else Extracted dest)] /\
    r = (if bm then ElapsedSeconds else NoResult).
Proof.
  unfold extract_body. intro H. apply bind_returns in H.
  destruct H as (fs1 & out1 & a & out2 & _ & H2 & ->).
  unfold extract_report in H2. destruct bm; injection H2 as <- <- <-; eauto.
Qed.

Lemma succeeded_error (out : list event) (e : error) :
  succeeded (out ++ [Stderr e]) = false.
Proof. rewrite succeeded_app. apply andb_false_r. Qed.

(** The two ways in which [archive] ends. *)
Lemma archive_outcome :
  forall (L : Libs) (src dst : path) (progress benchmark : bool) (fs : node),
    exists fs' out r,
      archive L src dst progress benchmark fs = (fs', out, Ok r) /\
      ((succeeded out = true /\
        r = (if benchmark then ElapsedSeconds else NoResult) /\
        exists d s out0,
          look fs' dst = IsFile d /\
          out = out0 ++ [Stdout (if benchmark then ArchiveBenchmark s (List.length d)
                                 else ArchiveCreated dst (List.length d))]) \/
       (succeeded out = false /\
        r = NoResult /\
        exists e out0, out = out0 ++ [Stderr e] /\ succeeded out0 = true)).
Proof.
  intros L src dst pr bm fs. unfold archive.
  unfold bind at 1. unfold get_fs at 1.
  destruct (negb (FS.exists_ fs src)).
  { eexists _, _, _. split; [reflexivity|]. right. repeat split.
    eexists _, []. split; reflexivity. }
  destruct (format_of dst) as [[t c]|].
  2:{ eexists _, _, _. split; [reflexivity|]. right. repeat split.
      eexists _, []. split; reflexivity. }
  destruct (FS.is_dir fs src && negb (is_tar t)).
  { eexists _, _, _. split; [reflexivity|]. right. repeat split.
    eexists _, []. split; reflexivity. }
  pose proof (archive_body_quiet L src dst t c pr bm fs) as Hq. unfold quiet in Hq.
  destruct (try_except (archive_body L src dst t c pr bm)
                       (fun e => print_err (ArchiveFailed e) ;;; ret NoResult) fs)
    as [[fs' out] r] eqn:E.
  apply try_except_cases in E. destruct E as [(a & Hb & ->)|(fs1 & out1 & e & out2 & Hb & Hh & ->)].
  - rewrite Hb in Hq. cbn [fst snd] in Hq.
    destruct (archive_body_returns L src dst t c pr bm fs fs' out a Hb)
      as (d & s & out0 & Hd & -> & ->).
    exists fs', (out0 ++ [Stdout (if bm then ArchiveBenchmark s (List.length d)
                                 else ArchiveCreated dst (List.length d))]),
      (if bm then ElapsedSeconds else NoResult).
    split; [reflexivity|]. left. split; [exact Hq|]. split; [reflexivity|].
    exists d, s, out0. auto.
  - rewrite Hb in Hq. cbn [fst snd] in Hq.
    injection Hh as <- <- <-.
    exists fs1, (out1 ++ [Stderr (ArchiveFailed e)]), NoResult.
    split; [reflexivity|]. right. split; [apply succeeded_error|].
    split; [reflexivity|]. exists (ArchiveFailed e), out1. auto.
Qed.

(** X8.  Every run of [archive] returns, and in one of two ways.  Either
    nothing went to the error stream: then the destination is a regular
    file, the last line printed is the report giving its size, and the
    result is the elapsed time exactly in a benchmark run.  Or the run ends
    with one error message, the only one, and there is no result. *)
Theorem archive_result_contract :
  forall (L : Libs) (src dst : path) (progress benchmark : bool) (fs : node),
    exists fs' out r,
      archive L src dst progress benchmark fs = (fs', out, Ok r) /\
      ((succeeded out = true /\
        r = (if benchmark then ElapsedSeconds else NoResult) /\
        exists d s out0,
          look fs' dst = IsFile d /\
          out = out0 ++ [Stdout (if benchmark then ArchiveBenchmark s (List.length d)
                                 else ArchiveCreated dst (List.length d))]) \/
       (succeeded out = false /\
        r = NoResult /\
        exists e out0, out = out0 ++ [Stderr e] /\ succeeded out0 = true)).
Proof. intros. apply archive_outcome. Qed.

(** X9.  A run of [extract] that returns does so in one of two ways.
    Either nothing went to the error stream: then the last line printed is
    the report, and the result is the elapsed time exactly in a benchmark
    run.  Or the run ends with one error message, the only one, and there is
    no result. *)
Theorem extract_result_contract :
  forall (L : Libs) (p dest : path) (progress benchmark : bool)
         (fs fs' : node) (out : list event) (r : returned),
    extract L p dest progress benchmark fs = (fs', out, Ok r) ->
    (succeeded out = true /\
     r = (if benchmark then ElapsedSeconds else NoResult) /\
     exists out0,
       out = out0 ++ [Stdout (if benchmark then ExtractBenchmark
                              else Extracted dest)]) \/
    (succeeded out = false /\
     r = NoResult /\
     exists e out0, out = out0 ++ [Stderr e] /\ succeeded out0 = true).
Proof.
  intros L p dest pr bm fs fs' out r. unfold extract.
  unfold bind at 1. unfold get_fs at 1.
  destruct (negb (FS.exists_ fs p)).
  { intros [= <- <- <-]. right. repeat split. eexists _, []. split; reflexivity. }
  destruct (format_of p) as [[t c]|].
  2:{ intros [= <- <- <-]. right. repeat split. eexists _, []. split; reflexivity. }
  unfold bind at 1. unfold update at 1.
  destruct (FS.mkdir_parents fs dest) as [fs1|e]; [|discriminate].
  pose proof (extract_body_quiet L p dest t c pr bm fs1) as Hq. unfold quiet in Hq.
  destruct (try_except (extract_body L p dest t c pr bm)
                       (fun e => print_err (ExtractFailed e) ;;; ret NoResult) fs1)
    as [[fs2 out2] r2] eqn:E.
  intros [= <- <- ->]. cbn [app].
  apply try_except_cases in E.
  destruct E as [(a & Hb & [= ->])|(fs3 & out1 & e & out3 & Hb & Hh & ->)].
  - rewrite Hb in Hq. cbn [fst snd] in Hq.
    destruct (extract_body_returns L p dest t c pr bm fs1 fs2 out2 a Hb)
      as (out0 & -> & ->).
    left. split; [exact Hq|]. split; [reflexivity|]. exists out0. reflexivity.
  - rewrite Hb in Hq. cbn [fst snd] in Hq.
    injection Hh as <- <- <-.
    right. split; [apply succeeded_error|].
    split; [reflexivity|]. exists (ExtractFailed e), out1. auto.
Qed.

(** X9 at a concrete input: a raw zstd archive unpacked into [out]. *)
Lemma extract_result_contract_witness :
  (succeeded [Stdout (Extracted ["out"])] = true /\
   NoResult = (if false then ElapsedSeconds else NoResult) /\
   exists out0,
     [Stdout (Extracted ["out"])]
     = out0 ++ [Stdout (if false then ExtractBenchmark else Extracted ["out"])]) \/
  (succeeded [Stdout (Extracted ["out"])] = false /\
   NoResult = NoResult /\
   exists e out0,
     [Stdout (Extracted ["out"])] = out0 ++ [Stderr e] /\ succeeded out0 = true).
Proof.
  apply (extract_result_contract Toy.libs ["a.zst"] ["out"] false false
           (Dir [("a.zst", File (zstd_frame Toy.libs [x68; x69])); ("out", Dir [])])
           (Dir [("a.zst", File (zstd_frame Toy.libs [x68; x69]));
                 ("out", Dir [("a", File [x68; x69])])])).
  vm_compute. reflexivity.
Defined.

(** ** The codec adapter, there and back *)




(** ** A destination that cannot be written *)

(** [write_bytes] needs the parent to be a directory. *)
Lemma write_bytes_needs_parent (p : path) :
  forall (fs fs' : node) (d : bytes),
    FS.write_bytes fs p d = Ok fs' -> p <> [] -> look fs (parent p) = IsDir.
Proof.
  induction p as [|k p IH]; intros fs fs' d H Hp; [contradiction|].
  destruct fs as [d0|es]; [discriminate|]. simpl in H.
  destruct p as [|k' p]; [reflexivity|].
  rewrite parent_cons by discriminate. rewrite look_cons.
  destruct (FS.assoc k es) as [c|]; [|discriminate].
  destruct (FS.write_bytes c (k' :: p) d) as [c'|] eqn:Ew; [|discriminate].
  exact (IH c c' d Ew ltac:(discriminate)).
Qed.

Lemma blocked_at_unit (dst : path) (fs : node) : blocked_at dst fs fs [].
Proof. intros _ _. reflexivity. Qed.

Lemma blocked_at_seq (dst : path) (fs fs1 fs2 : node) (out1 out2 : list event) :
  blocked_at dst fs fs1 out1 -> blocked_at dst fs1 fs2 out2 ->
  blocked_at dst fs fs2 (out1 ++ out2).
Proof.
  intros H1 H2 Hd Hu. specialize (H1 Hd Hu). subst fs1. exact (H2 Hd Hu).
Qed.

Lemma blocked_at_write (dst : path) (d : bytes) (fs fs' : node) (out : list event) :
  FS.write_bytes fs dst d = Ok fs' -> blocked_at dst fs fs' out.
Proof.
  intros H Hd [Hu|Hu]; exfalso.
  - exact (Hu (write_bytes_needs_parent dst fs fs' d H Hd)).
  - exact (write_bytes_not_dir dst fs fs' d H Hu).
Qed.

Lemma archive_blocked_at (L : Libs) (src dst : path) (pr bm : bool) :
  always (blocked_at dst) (archive L src dst pr bm).
Proof.
  open_program.
  always_run (blocked_at_unit dst) (blocked_at_seq dst);
    try apply blocked_at_unit; try (eapply blocked_at_write; eassumption).
Qed.

(** X11.  When the destination cannot be written (its parent is no
    directory, or it is a directory itself) [archive] changes nothing in the
    file system, reports an error and returns no result. *)
Theorem archive_unwritable_destination :
  forall (L : Libs) (src dst : path) (progress benchmark : bool) (fs : node),
    look fs (parent dst) <> IsDir \/ look fs dst = IsDir ->
    exists out,
      archive L src dst progress benchmark fs = (fs, out, Ok NoResult) /\
      succeeded out = false.
Proof.
  intros L src dst pr bm fs Hu.
  destruct (path_eq_dec dst []) as [->|Hd].
  { unfold archive. unfold bind at 1. unfold get_fs at 1.
    destruct (negb (FS.exists_ fs src)); eexists; split; reflexivity. }
  pose proof (archive_blocked_at L src dst pr bm fs Hd Hu) as Hsame.
  destruct (archive_outcome L src dst pr bm fs) as (fs' & out & r & E & Hc).
  rewrite E in Hsame. cbn [fst snd] in Hsame. subst fs'.
  destruct Hc as [(_ & _ & d & s & out0 & Hl & _)|(Hs & -> & _)].
  - exfalso. destruct Hu as [Hu|Hu]; [|congruence].
    apply Hu. apply (look_above fs (parent dst) [name dst]); [|discriminate].
    unfold parent, name. rewrite <- (app_removelast_last "" Hd), Hl. discriminate.
  - exists out. auto.
Qed.

(** X11 at a concrete input: the directory [nowhere] does not exist. *)
Lemma archive_unwritable_destination_witness :
  exists out,
    archive Toy.libs ["f.txt"] ["nowhere"; "f.zst"] true true fs_sample
    = (fs_sample, out, Ok NoResult) /\
    succeeded out = false.
Proof.
  apply (archive_unwritable_destination Toy.libs ["f.txt"] ["nowhere"; "f.zst"]
           true true fs_sample).
  left. discriminate.
Defined.

(** ** Failed extractions *)






(** The archive is still there after the destination directory was made. *)
Lemma mkdir_keeps_file (fs fs1 : node) (p dest : path) (data : bytes) :
  look fs p = IsFile data -> FS.mkdir_parents fs dest = Ok fs1 ->
  FS.read_bytes fs1 p = Ok data.
Proof.
  intros Hl Hm. apply read_bytes_look.
  rewrite (mkdir_parents_look dest fs fs1 Hm p).
  destruct (is_prefix p dest) eqn:E; [|exact Hl].
  now destruct (mkdir_parents_inv dest fs fs1 Hm p data E).
Qed.

(** X13.  A corrupt archive of the bz2 family: when [bz2.decompress] (for
    .bz2) or the tar library's bz2 reader (for .tar.bz2) rejects the bytes of
    the archive, [extract] has created the destination directory and nothing
    else, prints the exception as an extraction error after at most the
    opening progress line, and returns no result. *)
Theorem extract_corrupt_bz2_archive :
  forall (L : Libs) (p dest : path) (archive_type : container)
         (progress benchmark : bool) (fs fs1 : node) (data : bytes) (e : exn),
    look fs p = IsFile data ->
    format_of p = Some (archive_type, Bz2) ->
    FS.mkdir_parents fs dest = Ok fs1 ->
    match archive_type with
    | Single => bz2_decompress L data = Raise e
    | Tar => tar_bz2_read L data = Raise e
    end ->
    extract L p dest progress benchmark fs
    = (fs1,
       (if progress then print_progress 0 1 lbl_extract else [])
         ++ [Stderr (ExtractFailed e)],
       Ok NoResult).
Proof.
  intros L p dest t pr bm fs fs1 data e Hl Hf Hm Hbad.
  assert (He : FS.exists_ fs p = true).
  { apply look_is_file in Hl. unfold FS.exists_. now rewrite Hl. }
  rewrite (extract_past_validation L p dest t Bz2 pr bm fs fs1 He Hf Hm).
  pose proof (mkdir_keeps_file fs fs1 p dest data Hl Hm) as Hr.
  unfold extract_body, decompress_bz2, try_except, bind, query, lift, emit, ret,
    print_err.
  destruct t.
  - destruct pr; cbn; rewrite Hr; cbn; rewrite Hbad; reflexivity.
  - destruct pr; cbn; rewrite Hr; cbn; rewrite Hbad; reflexivity.
Qed.

(** X13 at a concrete input: four bytes that are no bz2 stream. *)
Lemma extract_corrupt_bz2_archive_witness :
  extract Toy.libs ["f.tar.bz2"] ["fresh"] true true
          (Dir [("f.tar.bz2", File [x64; x61; x74; x61])])
  = (Dir [("f.tar.bz2", File [x64; x61; x74; x61]); ("fresh", Dir [])],
     print_progress 0 1 lbl_extract ++ [Stderr (ExtractFailed CodecError)],
     Ok NoResult).
Proof.
  apply (extract_corrupt_bz2_archive Toy.libs ["f.tar.bz2"] ["fresh"] Tar true true
           (Dir [("f.tar.bz2", File [x64; x61; x74; x61])])
           (Dir [("f.tar.bz2", File [x64; x61; x74; x61]); ("fresh", Dir [])])
           [x64; x61; x74; x61] CodecError);
    reflexivity.
Defined.

(** ** The name of a raw extraction's output *)

Lemma lower_ascii_dot (c : ascii) :
  Str.lower_ascii c = Str.dot -> c = Str.dot.
Proof. destruct c as [[] [] [] [] [] [] [] []]; vm_compute; intro H; congruence. Qed.

Lemma lower_ascii_not_dot (c x : ascii) :
  Str.lower_ascii c = x -> x <> Str.dot -> Ascii.eqb c Str.dot = false.
Proof.
  intros H Hx. destruct (Ascii.eqb c Str.dot) eqn:E; [|reflexivity].
  apply Ascii.eqb_eq in E. subst c. now destruct Hx.
Qed.

(** A codec suffix, in any case, is a dot and three characters that are no
    dots. *)
Lemma codec_suffix_shape (suf : string) :
  Str.lower suf = ".zst"%string \/ Str.lower suf = ".bz2"%string ->
  exists c1 c2 c3,
    suf = String Str.dot (String c1 (String c2 (String c3 EmptyString))) /\
    Ascii.eqb c1 Str.dot = false /\ Ascii.eqb c2 Str.dot = false /\
    Ascii.eqb c3 Str.dot = false.
Proof.
  intro H.
  destruct suf as [|c0 [|c1 [|c2 [|c3 [|c4 s]]]]];
    try (destruct H as [H|H]; discriminate H).
  exists c1, c2, c3.
  destruct H as [H|H]; cbn in H; injection H as H0 H1 H2 H3;
    apply lower_ascii_dot in H0; subst c0;
    (split; [reflexivity|]);
    repeat split;
    match goal with
    | |- Ascii.eqb ?c _ = false =>
        match goal with
        | Hc : Str.lower_ascii c = _ |- _ =>
            apply (lower_ascii_not_dot c _ Hc); discriminate
        end
    end.
Qed.

Lemma rfind_dot_app (base suf : string) :
  Str.rfind_dot suf = Some 0%nat ->
  Str.rfind_dot (base ++ suf) = Some (String.length base).
Proof.
  intro H. induction base as [|c base IH]; [exact H|].
  cbn. now rewrite IH.
Qed.

Lemma substring_app (base suf : string) :
  substring 0 (String.length base) (base ++ suf) = base.
Proof. induction base as [|c base IH]; cbn; [now destruct suf|now rewrite IH]. Qed.

(** [Path.stem] takes the codec suffix off, unless only dots stand before
    it. *)
Lemma stem_strips_codec_suffix (base suf : string) :
  Str.lower suf = ".zst"%string \/ Str.lower suf = ".bz2"%string ->
  Str.stem (base ++ suf)
  = match Str.lstrip_dots base with
    | EmptyString => (base ++ suf)%string
    | _ => base
    end.
Proof.
  intro H. destruct (codec_suffix_shape suf H) as (c1 & c2 & c3 & -> & H1 & H2 & H3).
  unfold Str.stem. rewrite rfind_dot_app.
  - now rewrite substring_app.
  - cbn. rewrite H1, H2, H3. reflexivity.
Qed.

(** A raw extraction whose output path is free to be written. *)
Lemma runs_extract_raw (L : Libs) (HR : RoundTrips L) (p dest : path) (c : codec)
      (pr bm : bool) (d : bytes) (fs fs1 : node) :
  format_of p = Some (Single, c) ->
  look fs p = IsFile (codec_bytes L c d) ->
  FS.mkdir_parents fs dest = Ok fs1 ->
  look fs (dest ++ [Str.stem (name p)]) <> IsDir ->
  exists fs2 r,
    runs (extract L p dest pr bm) fs fs2 (Ok r) /\
    FS.write_bytes fs1 (dest ++ [Str.stem (name p)]) d = Ok fs2.
Proof.
  intros Hf Hl Hmk Hnd.
  pose proof (mkdir_parents_look _ _ _ Hmk) as Hv.
  assert (Hl' : look fs1 p = IsFile (codec_bytes L c d)).
  { rewrite Hv. destruct (is_prefix p dest) eqn:E; [|exact Hl].
    now destruct (mkdir_parents_inv dest fs fs1 Hmk p (codec_bytes L c d) E). }
  set (output_path := dest ++ [Str.stem (name p)]) in *.
  destruct (write_bytes_ok output_path fs1 d) as (fs2 & Hw).
  { unfold output_path. destruct dest; discriminate. }
  { unfold output_path, parent. rewrite removelast_last, Hv. now rewrite is_prefix_refl. }
  { rewrite Hv. unfold output_path.
    destruct (is_prefix (dest ++ [Str.stem (name p)]) dest) eqn:E;
      [apply is_prefix_app_nil in E; discriminate|exact Hnd]. }
  destruct (runs_extract_report dest bm fs2) as (r & Hrep).
  exists fs2, r. split; [|exact Hw].
  unfold extract.
  eapply runs_bind; [apply runs_get|].
  assert (Hex : FS.exists_ fs p = true).
  { apply look_is_file in Hl. unfold FS.exists_. now rewrite Hl. }
  rewrite Hex, Hf. cbn [negb].
  eapply runs_bind; [apply runs_update, Hmk|].
  apply runs_try. unfold extract_body.
  eapply runs_bind; [|exact Hrep].
  eapply runs_bind; [apply runs_progress_if|].
  eapply runs_bind.
  { instantiate (1 := d). instantiate (1 := fs1). destruct c.
    - apply (runs_decompress_zstd L HR), Hl'.
    - apply (runs_decompress_bz2 L HR), Hl'. }
  eapply runs_bind; [apply runs_update, Hw|].
  destruct pr; [|apply runs_ret].
  eapply runs_bind; [apply runs_emit|apply runs_emit].
Qed.

(** X14.  Unpacking a raw archive named [base.zst] or [base.bz2] (the
    suffix in any case), where [base] holds a character other than a dot:
    when the destination directory can be created and no directory stands at
    [dest/base], [extract] returns, the decompressed data is written to
    [dest/base], and apart from that file and the destination directory the
    file system is as before. *)
Theorem raw_extract_strips_codec_suffix :
  forall (L : Libs),
    RoundTrips L ->
    forall (p dest : path) (base suf : string) (compression : codec)
           (progress benchmark : bool) (d : bytes) (fs fs1 : node),
      name p = (base ++ suf)%string ->
      Str.lower suf = ".zst"%string \/ Str.lower suf = ".bz2"%string ->
      Str.lstrip_dots base <> EmptyString ->
      format_of p = Some (Single, compression) ->
      look fs p = IsFile (codec_bytes L compression d) ->
      FS.mkdir_parents fs dest = Ok fs1 ->
      look fs (dest ++ [base]) <> IsDir ->
      exists fs2 r,
        effect (extract L p dest progress benchmark fs) = (fs2, Ok r) /\
        forall q, look fs2 q = if path_eq_dec q (dest ++ [base]) then IsFile d
                               else look fs1 q.
Proof.
  intros L HR p dest base suf c pr bm d fs fs1 Hn Hs Hb Hf Hl Hmk Hnd.
  assert (Hstem : Str.stem (name p) = base).
  { rewrite Hn, (stem_strips_codec_suffix base suf Hs).
    destruct (Str.lstrip_dots base); [now destruct Hb|reflexivity]. }
  destruct (runs_extract_raw L HR p dest c pr bm d fs fs1 Hf Hl Hmk) as (fs2 & r & Hrun & Hw).
  { now rewrite Hstem. }
  rewrite Hstem in Hw. exists fs2, r. split; [exact Hrun|].
  exact (write_bytes_look _ _ _ _ Hw).
Qed.

(** X14 at a concrete input: [F.TXT.ZST] unpacked into the existing [out]. *)
Lemma raw_extract_strips_codec_suffix_witness :
  let fs := Dir [("F.TXT.ZST", File (zstd_frame Toy.libs [x68; x69])); ("out", Dir [])] in
  exists fs2 r,
    effect (extract Toy.libs ["F.TXT.ZST"] ["out"] true false fs) = (fs2, Ok r) /\
    forall q, look fs2 q = if path_eq_dec q (["out"] ++ ["F.TXT"]) then IsFile [x68; x69]
                           else look fs q.
Proof.
  apply (raw_extract_strips_codec_suffix Toy.libs toy_round_trips
           ["F.TXT.ZST"] ["out"] "F.TXT" ".ZST" Zst true false [x68; x69]
           (Dir [("F.TXT.ZST", File (zstd_frame Toy.libs [x68; x69])); ("out", Dir [])])
           (Dir [("F.TXT.ZST", File (zstd_frame Toy.libs [x68; x69])); ("out", Dir [])]));
    try reflexivity; try discriminate.
  left. reflexivity.
Defined.

(** X15.  An archive whose name is nothing but dots and a codec suffix (as
    [.zst]) keeps its whole name as output name.  Unpacked into its own
    directory, the archive is overwritten by the decompressed data. *)
Theorem raw_extract_overwrites_dot_named_archive :
  forall (L : Libs),
    RoundTrips L ->
    forall (p : path) (base suf : string) (compression : codec)
           (progress benchmark : bool) (d : bytes) (fs fs1 : node),
      name p = (base ++ suf)%string ->
      Str.lower suf = ".zst"%string \/ Str.lower suf = ".bz2"%string ->
      Str.lstrip_dots base = EmptyString ->
      format_of p = Some (Single, compression) ->
      look fs p = IsFile (codec_bytes L compression d) ->
      FS.mkdir_parents fs (parent p) = Ok fs1 ->
      exists fs2 r,
        effect (extract L p (parent p) progress benchmark fs) = (fs2, Ok r) /\
        look fs2 p = IsFile d.
Proof.
  intros L HR p base suf c pr bm d fs fs1 Hn Hs Hb Hf Hl Hmk.
  pose proof (format_of_nonempty p _ Hf) as Hp.
  assert (Hstem : Str.stem (name p) = name p).
  { rewrite Hn, (stem_strips_codec_suffix base suf Hs). now rewrite Hb. }
  assert (Hout : parent p ++ [Str.stem (name p)] = p).
  { rewrite Hstem. unfold parent, name. symmetry. now apply app_removelast_last. }
  destruct (runs_extract_raw L HR p (parent p) c pr bm d fs fs1 Hf Hl Hmk)
    as (fs2 & r & Hrun & Hw).
  { rewrite Hout, Hl. discriminate. }
  rewrite Hout in Hw. exists fs2, r. split; [exact Hrun|].
  rewrite (write_bytes_look _ _ _ _ Hw p). now destruct (path_eq_dec p p).
Qed.

(** X15 at a concrete input: the archive [out/.zst] unpacked into [out]. *)
Lemma raw_extract_overwrites_dot_named_archive_witness :
  exists fs2 r,
    effect (extract Toy.libs ["out"; ".zst"] (parent ["out"; ".zst"]) false false
                    (Dir [("out", Dir [(".zst", File (zstd_frame Toy.libs [x68; x69]))])]))
    = (fs2, Ok r) /\
    look fs2 ["out"; ".zst"] = IsFile [x68; x69].
Proof.
  apply (raw_extract_overwrites_dot_named_archive Toy.libs toy_round_trips
           ["out"; ".zst"] "" ".zst" Zst false false [x68; x69]
           (Dir [("out", Dir [(".zst", File (zstd_frame Toy.libs [x68; x69]))])])
           (Dir [("out", Dir [(".zst", File (zstd_frame Toy.libs [x68; x69]))])]));
    try reflexivity.
  left. reflexivity.
Defined.

(** ** The .tar.bz2 path keeps the whole tree *)

Lemma tar_add_dir (es : list (string * node)) (arcname : path) :
  tar_add (Dir es) arcname
  = MDir arcname
      :: List.concat
           (map snd
              (sort_by_name
                 (map (fun kc : string * node =>
                         (fst kc, tar_add (snd kc) (arcname ++ [fst kc]))) es))).
Proof.
  simpl. do 4 f_equal. induction es as [|[k c] es IH]; [reflexivity|].
  simpl. now rewrite IH.
Qed.

Lemma in_tar_add_dir (es : list (string * node)) (arcname : path) (m : member) :
  In m (tar_add (Dir es) arcname) <->
  m = MDir arcname \/
  exists k c, In (k, c) es /\ In m (tar_add c (arcname ++ [k])).
Proof.
  rewrite tar_add_dir. simpl. split.
  - intros [<-|Hm]; [now left|right].
    apply in_concat in Hm. destruct Hm as (ms & Hms & Hin).
    apply in_map_iff in Hms. destruct Hms as ([k ms'] & <- & Hk).
    apply (proj1 (in_sort_by_name _ _)) in Hk.
    apply in_map_iff in Hk. destruct Hk as ([k0 c] & [= <- <-] & Hc).
    exists k0, c. auto.
  - intros [->|(k & c & Hc & Hm)]; [now left|right].
    apply in_concat. exists (tar_add c (arcname ++ [k])). split; [|exact Hm].
    apply in_map_iff. exists (k, tar_add c (arcname ++ [k])). split; [reflexivity|].
    apply (proj2 (in_sort_by_name _ _)).
    apply in_map_iff. exists (k, c). auto.
Qed.

(** In a well-formed tree every member [TarFile.add] makes stands for the
    path it is named by. *)
Lemma tar_add_shows (n : node) :
  forall (arcname : path) (m : member),
    FS.wf n = true ->
    In m (tar_add n arcname) ->
    exists q, arcname_of m = arcname ++ q /\ look n q = shows m.
Proof.
  induction n as [d|es IH] using node_induction; intros arcname m Hwf Hm.
  - simpl in Hm. destruct Hm as [<-|[]]. exists []. now rewrite app_nil_r.
  - apply in_tar_add_dir in Hm. destruct Hm as [->|(k & c & Hc & Hm)].
    + exists []. now rewrite app_nil_r.
    + destruct (wf_dir es k c Hwf Hc) as [Ha Hw].
      rewrite Forall_forall in IH.
      destruct (IH (k, c) Hc (arcname ++ [k]) m Hw Hm) as (q & Hq & Hl).
      exists (k :: q). rewrite Hq, <- app_assoc, look_cons, Ha. auto.
Qed.

(** Every path of the tree has its member. *)
Lemma tar_add_covers (n : node) :
  forall (arcname q : path),
    look n q <> Absent ->
    exists m, In m (tar_add n arcname) /\ arcname_of m = arcname ++ q.
Proof.
  induction n as [d|es IH] using node_induction; intros arcname q Hq.
  - rewrite look_file in Hq. destruct (path_eq_dec q []) as [->|]; [|now destruct Hq].
    exists (MFile arcname d). rewrite app_nil_r. split; [now left|reflexivity].
  - destruct q as [|k q].
    + exists (MDir arcname). rewrite app_nil_r. split; [|reflexivity].
      apply in_tar_add_dir. now left.
    + rewrite look_cons in Hq.
      destruct (FS.assoc k es) as [c|] eqn:Ea; [|now destruct Hq].
      apply assoc_in in Ea. rewrite Forall_forall in IH.
      destruct (IH (k, c) Ea (arcname ++ [k]) q Hq) as (m & Hm & Hn).
      exists m. split.
      * apply in_tar_add_dir. right. eauto.
      * now rewrite Hn, <- app_assoc.
Qed.

Section UnpackTree.

(** The tree [tv] being restored under [dest]. *)
Variable tv : node.
Variable dest : path.

(** Above a directory of [tv] no regular file is in the way. *)
Lemma no_file_above (fs : node) (x : path) :
  partial_copy tv dest fs -> look tv x = IsDir ->
  forall q d, is_prefix q (dest ++ x) = true -> look fs q <> IsFile d.
Proof.
  intros [Hd HJ] Hx q d Hq Hf.
  destruct (is_prefix q dest) eqn:Eqd.
  - rewrite (look_prefix fs q dest Eqd Hd) in Hf. discriminate.
  - apply is_prefix_spec in Hq. destruct Hq as (r & Hr).
    assert (exists q', q = dest ++ q' /\ is_prefix q' x = true) as (q' & -> & Hq').
    { clear - Hr Eqd. revert q Hr Eqd.
      induction dest as [|k dd IH]; intros q Hr Eqd.
      - exists q. split; [reflexivity|]. apply is_prefix_spec. eauto.
      - destruct q as [|k' q]; [discriminate|]. simpl in *.
        injection Hr as -> Hr. rewrite String.eqb_refl in Eqd. simpl in Eqd.
        destruct (IH q Hr Eqd) as (q' & -> & Hq'). eauto. }
    destruct (HJ q') as [H|H]; rewrite H in Hf; [discriminate|].
    rewrite (look_prefix tv q' x Hq' Hx) in Hf. discriminate.
Qed.

(** Creating a directory of [tv] under [dest]. *)
Lemma mkdir_in_copy (fs : node) (x : path) :
  partial_copy tv dest fs -> look tv x = IsDir ->
  exists fs1,
    FS.mkdir_parents fs (dest ++ x) = Ok fs1 /\
    partial_copy tv dest fs1 /\
    look fs1 (dest ++ x) = IsDir /\
    (forall y, look fs y <> Absent -> look fs1 y <> Absent).
Proof.
  intros HJ Hx.
  destruct (mkdir_parents_ok (dest ++ x) fs (no_file_above fs x HJ Hx)) as (fs1 & Hm).
  pose proof (mkdir_parents_look _ _ _ Hm) as Hv. destruct HJ as [Hd HJ].
  exists fs1. split; [exact Hm|]. split; [split|split].
  - rewrite Hv. now rewrite is_prefix_app.
  - intro q. rewrite Hv, is_prefix_app_same.
    destruct (is_prefix q x) eqn:Eq; [|apply HJ].
    right. symmetry. exact (look_prefix tv q x Eq Hx).
  - rewrite Hv. now rewrite is_prefix_refl.
  - intros y Hy. rewrite Hv. destruct (is_prefix y (dest ++ x)); [discriminate|exact Hy].
Qed.

(** The first step of [TarFile.extract]: the directories above the target. *)
Lemma upper_dirs_in_copy (fs : node) (x : path) :
  partial_copy tv dest fs -> look tv x = IsDir ->
  exists fs1,
    (if FS.exists_ fs (dest ++ x) then ret tt
     else update (fun fs => FS.mkdir_parents fs (dest ++ x))) fs
    = (fs1, [], Ok tt) /\
    partial_copy tv dest fs1 /\
    look fs1 (dest ++ x) = IsDir /\
    (forall y, look fs y <> Absent -> look fs1 y <> Absent).
Proof.
  intros HJ Hx. destruct (FS.exists_ fs (dest ++ x)) eqn:Ex.
  - exists fs. split; [reflexivity|]. split; [exact HJ|]. split; [|auto].
    destruct HJ as [_ HJ]. unfold FS.exists_ in Ex.
    destruct (HJ x) as [H|H]; [|now rewrite H].
    unfold look in H. destruct (FS.lookup fs (dest ++ x)) as [[]|]; discriminate.
  - destruct (mkdir_in_copy fs x HJ Hx) as (fs1 & Hm & H1 & H2 & H3).
    exists fs1. unfold update. rewrite Hm. auto.
Qed.

Lemma parent_is_dir (p : path) :
  p <> [] -> look tv p <> Absent -> look tv (parent p) = IsDir.
Proof.
  intros Hp Hl. apply (look_above tv (parent p) [last p ""]); [|discriminate].
  unfold parent. now rewrite <- app_removelast_last by exact Hp.
Qed.

(** Unpacking a member that stands for a path of [tv]. *)
Lemma tar_extract_member (fs : node) (m : member) :
  partial_copy tv dest fs ->
  arcname_of m <> [] -> look tv (arcname_of m) = shows m ->
  exists fs',
    tar_extract m dest fs = (fs', [], Ok tt) /\
    partial_copy tv dest fs' /\
    look fs' (dest ++ arcname_of m) <> Absent /\
    (forall x, look fs x <> Absent -> look fs' x <> Absent).
Proof.
  intros HJ Hp Hl. destruct m as [p d|p]; cbn [arcname_of shows] in *.
  - destruct (tar_extract_file tv dest fs p d HJ Hp Hl) as (fs' & H1 & H2 & H3 & H4).
    exists fs'. split; [exact H1|]. split; [exact H2|]. split; [|exact H4].
    rewrite H3. discriminate.
  - assert (Hpar : look tv (parent p) = IsDir).
    { apply (parent_is_dir p Hp). rewrite Hl. discriminate. }
    destruct (upper_dirs_in_copy fs (parent p) HJ Hpar) as (fs1 & Hrun & HJ1 & _ & Hm1).
    destruct (mkdir_in_copy fs1 p HJ1 Hl) as (fs2 & Hmk & HJ2 & Hd2 & Hm2).
    exists fs2. split; [|split; [exact HJ2|split]].
    + unfold tar_extract. cbn [arcname_of]. rewrite parent_app by exact Hp.
      unfold bind, get_fs. rewrite Hrun. unfold update. rewrite Hmk. reflexivity.
    + rewrite Hd2. discriminate.
    + auto.
Qed.

(** Unpacking members that all stand for paths of [tv]. *)
Lemma tar_extractall_tree (ms : list member) :
  forall fs,
    partial_copy tv dest fs ->
    (forall m, In m ms -> arcname_of m <> [] /\ look tv (arcname_of m) = shows m) ->
    exists fs',
      tar_extractall ms dest fs = (fs', [], Ok tt) /\
      partial_copy tv dest fs' /\
      (forall m, In m ms -> look fs' (dest ++ arcname_of m) <> Absent).
Proof.
  unfold tar_extractall.
  assert (H : forall fs,
             partial_copy tv dest fs ->
             (forall m, In m ms -> arcname_of m <> [] /\ look tv (arcname_of m) = shows m) ->
             exists fs',
               for_each ms tt (fun member _ => tar_extract member dest) fs
               = (fs', [], Ok tt) /\
               partial_copy tv dest fs' /\
               (forall m, In m ms -> look fs' (dest ++ arcname_of m) <> Absent) /\
               (forall x, look fs x <> Absent -> look fs' x <> Absent)).
  { induction ms as [|m ms IH]; intros fs HJ Hms.
    - exists fs. split; [reflexivity|]. split; [exact HJ|]. split; [intros ? []|auto].
    - destruct (Hms m (or_introl eq_refl)) as [Hp Hl].
      destruct (tar_extract_member fs m HJ Hp Hl) as (fs1 & Hrun & HJ1 & Hf1 & Hmono1).
      destruct (IH fs1 HJ1 (fun m H => Hms m (or_intror H)))
        as (fs2 & Hrun2 & HJ2 & Hf2 & Hmono2).
      exists fs2. split; [|split; [exact HJ2|split]].
      + simpl. unfold bind. rewrite Hrun, Hrun2. reflexivity.
      + intros m' [<-|Hin]; [now apply Hmono2|now apply Hf2].
      + auto. }
  intros fs HJ Hms. destruct (H fs HJ Hms) as (fs' & H1 & H2 & H3 & _). eauto.
Qed.

End UnpackTree.

(** Writing a file leaves the node at a path that is not above it. *)
Lemma lookup_write_apart (dst : path) :
  forall (fs fs0 : node) (d : bytes) (src : path),
    FS.write_bytes fs dst d = Ok fs0 -> is_prefix src dst = false ->
    FS.lookup fs0 src = FS.lookup fs src.
Proof.
  induction dst as [|k dst IH]; intros fs fs0 d src Hw Hp.
  - destruct src as [|k2 src]; [discriminate|].
    destruct fs as [d0|es]; [|discriminate]. now injection Hw as <-.
  - destruct src as [|k2 src]; [discriminate|].
    destruct fs as [d0|es]; [discriminate|]. simpl in Hw, Hp.
    assert (Hset : forall c',
               FS.lookup c' src = match FS.assoc k es with
                                  | Some c => FS.lookup c src
                                  | None => None
                                  end \/ String.eqb k2 k = false ->
               FS.lookup (Dir (FS.set_entry k c' es)) (k2 :: src)
               = FS.lookup (Dir es) (k2 :: src)).
    { intros c' H. simpl. rewrite assoc_set_entry.
      destruct (String.eqb k2 k) eqn:E; [|reflexivity].
      apply String.eqb_eq in E. subst k2.
      destruct H as [H|H]; [|discriminate]. rewrite H.
      now destruct (FS.assoc k es). }
    destruct (String.eqb k2 k) eqn:E; simpl in Hp.
    + destruct (FS.assoc k es) as [c|] eqn:Ea.
      * destruct (FS.write_bytes c dst d) as [c'|] eqn:Ew; [|discriminate].
        injection Hw as <-. apply Hset. left. exact (IH c c' d src Ew Hp).
      * destruct dst; [|discriminate]. injection Hw as <-. apply Hset. left.
        destruct src; [discriminate|reflexivity].
    + destruct (FS.assoc k es) as [c|] eqn:Ea.
      * destruct (FS.write_bytes c dst d) as [c'|] eqn:Ew; [|discriminate].
        injection Hw as <-. apply Hset. now right.
      * destruct dst; [|discriminate]. injection Hw as <-. apply Hset. now right.
Qed.

(** Archiving to .tar.bz2 a source that the archive does not lie in. *)
Lemma runs_archive_tar_bz2 (L : Libs) (src dst : path) (pr bm : bool)
      (fs fs0 fs1 : node) (t : node) :
  FS.lookup fs src = Some t ->
  is_prefix src dst = false ->
  format_of dst = Some (Tar, Bz2) ->
  FS.write_bytes fs dst [] = Ok fs0 ->
  FS.write_bytes fs0 dst (tar_bz2_write L (tar_add t [name src])) = Ok fs1 ->
  exists r, runs (archive L src dst pr bm) fs fs1 (Ok r).
Proof.
  intros Hs Hne Hf Hw0 Hw.
  destruct (runs_archive_report src dst bm fs1
              (tar_bz2_write L (tar_add t [name src]))) as (r & Hrep).
  { rewrite (write_bytes_look _ _ _ _ Hw). now destruct (path_eq_dec dst dst). }
  exists r. unfold archive.
  eapply runs_bind; [apply runs_get|].
  assert (Hex : FS.exists_ fs src = true) by (unfold FS.exists_; now rewrite Hs).
  rewrite Hex, Hf. cbn [negb is_tar]. rewrite andb_false_r.
  apply runs_try. unfold archive_body.
  eapply runs_bind; [|exact Hrep].
  assert (Hadd : runs (tar_bz2_add L src dst) fs fs1 (Ok tt)).
  { unfold tar_bz2_add.
    eapply runs_bind; [apply runs_update, Hw0|].
    eapply runs_bind.
    - apply runs_query_ok.
      rewrite (lookup_write_apart dst fs fs0 [] src Hw0 Hne), Hs. reflexivity.
    - apply runs_update, Hw. }
  eapply runs_bind; [apply (runs_build_members src pr fs)|].
  destruct pr; [|exact Hadd].
  eapply runs_bind; [apply runs_emit|].
  eapply runs_bind; [exact Hadd|].
  eapply runs_bind; [apply runs_emit|apply runs_emit].
Qed.

(** Unpacking a tar archive whose members stand for the paths of [tv]. *)
Lemma runs_extract_tar_tree (L : Libs) (HR : RoundTrips L) (dst dest : path)
      (c : codec) (pr bm : bool) (ms : list member) (tv fs1 fs1' : node) :
  format_of dst = Some (Tar, c) ->
  look fs1 dst = IsFile (tar_bytes L c ms) ->
  look tv [] = IsDir ->
  (forall m, In m ms -> arcname_of m <> [] /\ look tv (arcname_of m) = shows m) ->
  look fs1 dest = Absent ->
  FS.mkdir_parents fs1 dest = Ok fs1' ->
  is_prefix dst dest = false ->
  exists fs2 r,
    runs (extract L dst dest pr bm) fs1 fs2 (Ok r) /\
    tar_extractall ms dest fs1' = (fs2, [], Ok tt) /\
    partial_copy tv dest fs2 /\
    (forall m, In m ms -> look fs2 (dest ++ arcname_of m) <> Absent).
Proof.
  intros Hf Hl Htv Hms Hfresh Hmk Hapart.
  pose proof (fresh_dest_partial_copy tv fs1 fs1' dest Htv Hfresh Hmk) as HJ.
  destruct (tar_extractall_tree tv dest ms fs1' HJ Hms) as (fs2 & Hall & HJ2 & Hin).
  destruct (runs_extract_report dest bm fs2) as (r & Hrep).
  exists fs2, r. split; [|split; [exact Hall|split; [exact HJ2|exact Hin]]].
  assert (Hl' : look fs1' dst = IsFile (tar_bytes L c ms)).
  { rewrite (mkdir_parents_look _ _ _ Hmk), Hapart. exact Hl. }
  assert (Hloop : runs (if pr then
                          extract_members_progress
                            ms dest
                            (match c with Zst => List.length ms | Bz2 => 0%nat end)
                            (match c with
                             | Zst => (List.length ms * 2)%nat
                             | Bz2 => List.length ms
                             end)
                            (match c with Zst => lbl_extract_tar | Bz2 => lbl_extract end)
                        else tar_extractall ms dest) fs1' fs2 (Ok tt)).
  { destruct pr; [|exact (runs_of_run _ _ _ _ _ Hall)].
    eapply runs_of_effect; [apply extract_members_progress_effect|].
    exact (runs_of_run _ _ _ _ _ Hall). }
  unfold extract.
  eapply runs_bind; [apply runs_get|].
  assert (Hex : FS.exists_ fs1 dst = true).
  { apply look_is_file in Hl. unfold FS.exists_. now rewrite Hl. }
  rewrite Hex, Hf. cbn [negb].
  eapply runs_bind; [apply runs_update, Hmk|].
  apply runs_try. unfold extract_body.
  eapply runs_bind; [|exact Hrep].
  destruct c.
  - eapply runs_bind; [apply runs_progress_if|].
    eapply runs_bind; [apply (runs_decompress_zstd L HR), Hl'|].
    eapply runs_bind; [apply runs_progress_if|].
    eapply runs_bind; [apply runs_lift_ok, (tar_round_trip HR)|].
    exact Hloop.
  - eapply runs_bind; [apply runs_progress_if|].
    eapply runs_bind; [apply runs_query_ok, read_bytes_look, Hl'|].
    eapply runs_bind; [apply runs_lift_ok, (tar_bz2_round_trip HR)|].
    exact Hloop.
Qed.

(** X16.  Archive to .tar.bz2 and then extract into a new directory, the
    archive lying neither in the source nor in the destination: both
    operations return, and the destination holds exactly one entry, named as
    the source, under which the whole source is found again: every regular
    file with its bytes and every directory, empty ones too. *)
Theorem tar_bz2_round_trip_restores_under_root_name :
  forall (L : Libs),
    RoundTrips L ->
    forall (fs : node) (src dst dest : path) (t : node)
           (progress1 benchmark1 progress2 benchmark2 : bool),
      FS.wf fs = true ->
      FS.lookup fs src = Some t ->
      format_of dst = Some (Tar, Bz2) ->
      is_prefix src dst = false ->
      look fs (parent dst) = IsDir ->
      look fs dst <> IsDir ->
      look fs dest = Absent ->
      creatable fs dest = true ->
      is_prefix dst dest = false ->
      exists (fs1 : node) (r1 : returned) (fs2 : node) (r2 : returned),
        runs (archive L src dst progress1 benchmark1) fs fs1 (Ok r1) /\
        runs (extract L dst dest progress2 benchmark2) fs1 fs2 (Ok r2) /\
        forall x, look fs2 (dest ++ x) = look (Dir [(name src, t)]) x.
Proof.
  intros L HR fs src dst dest t pr1 bm1 pr2 bm2
         Hwf Hsrc Hfmt Hout Hpar Hnd Hfresh Hcreat Hapart.
  pose proof (format_of_nonempty dst _ Hfmt) as Hdst.
  pose proof (wf_lookup src fs t Hwf Hsrc) as Hwft.
  set (ms := tar_add t [name src]).
  destruct (write_bytes_ok dst fs [] Hdst Hpar Hnd) as (fs0 & Hw0).
  pose proof (write_bytes_look _ _ _ _ Hw0) as Hv0.
  destruct (write_bytes_ok dst fs0 (tar_bz2_write L ms) Hdst) as (fs1 & Hw).
  { rewrite Hv0. destruct (path_eq_dec (parent dst) dst) as [E|]; [|exact Hpar].
    now destruct (parent_neq dst Hdst). }
  { rewrite Hv0. now destruct (path_eq_dec dst dst). }
  destruct (runs_archive_tar_bz2 L src dst pr1 bm1 fs fs0 fs1 t Hsrc Hout Hfmt Hw0 Hw)
    as (r1 & Hrun1).
  assert (Hv1 : forall x, look fs1 x = if path_eq_dec x dst
                                       then IsFile (tar_bz2_write L ms) else look fs x).
  { intro x. rewrite (write_bytes_look _ _ _ _ Hw), Hv0.
    now destruct (path_eq_dec x dst). }
  destruct (dest_still_fresh fs fs1 dst dest _ Hv1 Hfresh Hcreat Hapart)
    as (Hl1 & Hf1 & fs1' & Hmk).
  set (tv := Dir [(name src, t)]).
  assert (Hroot : forall q, look tv (name src :: q) = look t q).
  { intro q. unfold tv. rewrite look_cons. simpl. now rewrite String.eqb_refl. }
  destruct (runs_extract_tar_tree L HR dst dest Bz2 pr2 bm2 ms tv fs1 fs1'
              Hfmt Hl1 eq_refl) as (fs2 & r2 & Hrun2 & _ & [Hd2 HJ2] & Hin);
    try assumption.
  { intros m Hm. destruct (tar_add_shows t [name src] m Hwft Hm) as (q & Hq & Hl).
    rewrite Hq. split; [discriminate|]. simpl. now rewrite Hroot. }
  exists fs1, r1, fs2, r2. split; [exact Hrun1|]. split; [exact Hrun2|].
  intro x. destruct (HJ2 x) as [E|E]; [|exact E].
  destruct x as [|k q]; [rewrite app_nil_r in E; congruence|].
  rewrite E. symmetry. unfold tv. rewrite look_cons. simpl.
  destruct (String.eqb k (name src)) eqn:Ek; [|reflexivity].
  apply String.eqb_eq in Ek. subst k.
  destruct (look t q) eqn:Et; [reflexivity| |]; exfalso;
    (destruct (tar_add_covers t [name src] q) as (m & Hm & Hn);
     [rewrite Et; discriminate|];
     apply (Hin m Hm); rewrite Hn; exact E).
Qed.

(** X16 at a concrete input: the directory [d] of the sample tree, archived
    to [out/d.tar.bz2] and unpacked into [restored]. *)
Lemma tar_bz2_round_trip_restores_under_root_name_witness :
  exists (fs1 : node) (r1 : returned) (fs2 : node) (r2 : returned),
    runs (archive Toy.libs ["d"] ["out"; "d.tar.bz2"] true false) fs_sample fs1 (Ok r1) /\
    runs (extract Toy.libs ["out"; "d.tar.bz2"] ["restored"] false true) fs1 fs2 (Ok r2) /\
    forall x,
      look fs2 (["restored"] ++ x)
      = look (Dir [(name ["d"],
                    Dir [("a", Dir [("b.txt", File [x68; x69]);
                                    ("c", Dir [("d.txt", File [x21])])])])]) x.
Proof.
  apply (tar_bz2_round_trip_restores_under_root_name Toy.libs toy_round_trips
           fs_sample ["d"] ["out"; "d.tar.bz2"] ["restored"]
           (Dir [("a", Dir [("b.txt", File [x68; x69]);
                            ("c", Dir [("d.txt", File [x21])])])])
           true false false true);
    try reflexivity; discriminate.
Defined.

(** ** The .tar.zst path leaves empty directories out *)











(** ** The flags change nothing that is written *)

Lemma archive_body_steps (L : Libs) (src dst : path) (t : container) (c : codec)
      (pr bm : bool) :
  archive_body L src dst t c pr bm
  = (archive_steps L src dst t c pr ;;; archive_report src dst bm).
Proof. reflexivity. Qed.









Lemma archive_unfold (L : Libs) (src dst : path) (pr bm : bool) (fs : node) :
  archive L src dst pr bm fs
  = if negb (FS.exists_ fs src) then (fs, [Stderr (SourceNotFound src)], Ok NoResult)
    else
      match format_of dst with
      | None => (fs, [Stderr UnsupportedFormat], Ok NoResult)
      | Some (t, c) =>
          if FS.is_dir fs src && negb (is_tar t)
          then (fs, [Stderr DirectoryRequiresTar], Ok NoResult)
          else try_except (archive_body L src dst t c pr bm)
                          (fun e => print_err (ArchiveFailed e) ;;; ret NoResult) fs
      end.
Proof.
  unfold archive. unfold bind at 1. unfold get_fs at 1. cbv beta.
  destruct (negb (FS.exists_ fs src)); [reflexivity|].
  destruct (format_of dst) as [[t c]|]; [|reflexivity].
  destruct (FS.is_dir fs src && negb (is_tar t)); [reflexivity|].
  now destruct (try_except _ _ fs) as [[? ?] ?].
Qed.



(** ** An empty file *)

Lemma progress_values_app (a b : list event) :
  progress_values (a ++ b) = progress_values a ++ progress_values b.
Proof.
  induction a as [|e a IH]; [reflexivity|].
  destruct e; simpl; now rewrite IH.
Qed.

Lemma barless_unit (fs : node) : barless fs fs [].
Proof. reflexivity. Qed.

Lemma barless_seq (fs fs1 fs2 : node) (out1 out2 : list event) :
  barless fs fs1 out1 -> barless fs1 fs2 out2 -> barless fs fs2 (out1 ++ out2).
Proof. unfold barless. intros H1 H2. now rewrite progress_values_app, H1, H2. Qed.

Lemma archive_report_barless (src dst : path) (bm : bool) :
  always barless (archive_report src dst bm).
Proof.
  unfold archive_report. always_run barless_unit barless_seq; reflexivity.
Qed.

Lemma range_step_zero : range_step 0 chunk_size = [].
Proof.
  unfold range_step. pose proof chunk_size_pos.
  rewrite Nat.div_small by lia. reflexivity.
Qed.

Lemma archive_steps_empty_file (L : Libs) (src dst : path) (c : codec) (fs : node) :
  look fs src = IsFile [] ->
  progress_values (snd (fst (archive_steps L src dst Single c true fs))) = [].
Proof.
  intro Hl. apply look_is_file in Hl.
  unfold archive_steps, compress_with_zstd, compress_with_bz2,
    bind, query, update, emit, print_out, print_newline, ret, FS.size, FS.read_bytes.
  repeat (cbn -[range_step]; rewrite ?Hl). destruct c.
  - rewrite range_step_zero. cbn.
    now destruct (FS.write_bytes fs dst _).
  - now destruct (FS.write_bytes fs dst _).
Qed.

(** X19.  Archiving an empty regular file as a raw archive with progress
    display draws no progress bar: every total is 0, and [print_progress]
    prints nothing for it. *)
Theorem archive_empty_file_draws_no_bar :
  forall (L : Libs) (src dst : path) (compression : codec) (benchmark : bool)
         (fs : node),
    look fs src = IsFile [] ->
    format_of dst = Some (Single, compression) ->
    progress_values (snd (fst (archive L src dst true benchmark fs))) = [].
Proof.
  intros L src dst c bm fs Hl Hf. rewrite archive_unfold, Hf.
  pose proof (archive_steps_empty_file L src dst c fs Hl) as Hs.
  apply look_is_file in Hl. unfold FS.exists_, FS.is_dir. rewrite Hl. cbn [negb andb].
  rewrite archive_body_steps. unfold try_except, bind. cbv beta.
  destruct (archive_steps L src dst Single c true fs) as [[fs1 out1] [[]|e]];
    cbn [fst snd] in Hs.
  - pose proof (archive_report_barless src dst bm fs1) as Hr. unfold barless in Hr.
    destruct (archive_report src dst bm fs1) as [[fs2 out2] [r|e]];
      cbn [fst snd] in *.
    + now rewrite progress_values_app, Hs, Hr.
    + unfold print_err, emit, ret. cbn.
      now rewrite !progress_values_app, Hs, Hr.
  - unfold print_err, emit, ret. cbn. now rewrite progress_values_app, Hs.
Qed.

(** X19 at a concrete input. *)
Lemma archive_empty_file_draws_no_bar_witness :
  progress_values
    (snd (fst (archive Toy.libs ["e"] ["e.zst"] true false (Dir [("e", File [])]))))
  = [].
Proof.
  apply (archive_empty_file_draws_no_bar Toy.libs ["e"] ["e.zst"] Zst false
           (Dir [("e", File [])]));
    reflexivity.
Defined.

(** ** Source and destination at the same path *)



(** ** The command line *)

(** X21.  [main] ends in the same way whether the command worked or
    reported an error: it returns nothing and sets no exit status.  The one
    exception that passes through it is the failure of [extract] to create
    the destination directory, before anything is printed or changed. *)
Theorem main_returns_even_after_errors :
  forall (L : Libs) (args : arguments) (fs : node),
    (exists fs' out, main L args fs = (fs', out, Ok tt)) \/
    (exists e,
        main L args fs = (fs, [], Raise e) /\
        exists archive_path destination progress benchmark,
          args = ExtractCommand archive_path destination progress benchmark /\
          FS.exists_ fs archive_path = true /\
          format_of archive_path <> None /\
          FS.mkdir_parents fs (destination_or_default destination) = Raise e).
Proof.
  intros L [src dst pr bm|p d pr bm] fs; unfold main, bind, ret.
  - left. destruct (archive_never_raises L src dst pr bm fs) as (fs' & out & r & ->).
    eauto.
  - destruct (extract L p (destination_or_default d) pr bm fs) as [[fs' out] [r|e]] eqn:E.
    + left. eauto.
    + right. exists e.
      assert (Hc : exists fs' out,
                 extract L p (destination_or_default d) pr bm fs = (fs', out, Raise e))
        by eauto.
      apply (proj1 (extract_raises_iff L p _ pr bm fs e)) in Hc.
      destruct Hc as (He & Hf & Hm). split; [|eauto 10].
      revert E. unfold extract. unfold bind at 1. unfold get_fs at 1.
      rewrite He. cbn [negb].
      destruct (format_of p) as [[t c]|]; [|now destruct Hf].
      unfold bind at 1. unfold update at 1. rewrite Hm.
      intro H. injection H as <- <-. reflexivity.
Qed.
